(** * pyqlizator: the wire-protocol engine of [pyqlizator/connection.py]

    A shallow embedding of the [Socket] and [Connection] classes and the
    properties of the reply classifier, the row builder, the transport
    generator and the command envelope.

    Python objects are embedded as the inductive type [pyval]; exceptions as
    [exn]; a function that may raise returns a [result].  The kernel socket
    behind [Socket._sock] is a script of read results and send faults held in
    a [world]; the [Connection] instance is the record [conn]. *)

From Stdlib Require Import List String Ascii ZArith Bool Lia.
From Stdlib Require Import Strings.Byte.
Import ListNotations.
Open Scope string_scope.
Open Scope list_scope.
Open Scope Z_scope.
#[local] Set Warnings "-register-all".

(** ** Python values

    The objects the msgpack decoder hands to the classifier, and the objects
    the driver builds (envelopes, rows).  Floats, byte strings as distinct
    from text, and msgpack extension objects are not modelled. *)

Inductive pyval : Type :=
| PNone
| PBool (b : bool)
| PInt (z : Z)
| PStr (s : string)
| PList (l : list pyval)
| PTuple (l : list pyval)
| PDict (d : list (pyval * pyval)).

(** A [dict] is kept as an association list in insertion order. *)
Definition pydict := list (pyval * pyval).

(** ** Exceptions *)

(** What [socket.socket] raises: [socket.error] or its subclass
    [socket.timeout], with the text [str(exc)] gives. *)
Inductive socket_exc : Type :=
| socket_error (text : string)
| socket_timeout (text : string).

Definition exc_str (e : socket_exc) : string :=
  match e with
  | socket_error t => t
  | socket_timeout t => t
  end.

(** Modelled from the spec: [pyqlizator/exceptions.py] is not among the
    sources; its [Error] is the single error kind carrying
    (code, message, optional wrapped cause), built in the source as
    [Error(code, message)] and [Error(code, message, exc)].

    Built-in exceptions are kept by class, without their message text. *)
Inductive exn : Type :=
| Error (code : pyval) (message : pyval) (cause : option socket_exc)
| SocketException (e : socket_exc)
| AttributeError (name : string)
| TypeError
| ValueError
| IndexError
| KeyError
| OtherException (name : string).

Inductive result (A : Type) : Type :=
| Return (a : A)
| Raise (e : exn).
Arguments Return {A} a.
Arguments Raise {A} e.

Definition bind {A B} (r : result A) (f : A -> result B) : result B :=
  match r with
  | Return a => f a
  | Raise e => Raise e
  end.

Declare Scope py_scope.
Delimit Scope py_scope with py.
Notation "x <- r ;; k" := (bind r (fun x => k))
  (at level 61, r at next level, right associativity) : py_scope.
Notation "' p <- r ;; k" := (bind r (fun x => let p := x in k))
  (at level 61, p pattern, r at next level, right associativity) : py_scope.
Open Scope py_scope.

(** ** Built-in operations on values *)

(** [bool(v)]: the truth value used by [if v] and [v and ...]. *)
Definition py_truthy (v : pyval) : bool :=
  match v with
  | PNone => false
  | PBool b => b
  | PInt z => negb (z =? 0)
  | PStr s => negb (String.eqb s "")
  | PList l => match l with [] => false | _ => true end
  | PTuple l => match l with [] => false | _ => true end
  | PDict d => match d with [] => false | _ => true end
  end.

(** [hash(v)] succeeds: lists and dicts, and tuples holding them, are
    unhashable. *)
Fixpoint hashable (v : pyval) : bool :=
  match v with
  | PNone | PBool _ | PInt _ | PStr _ => true
  | PTuple l => forallb hashable l
  | PList _ | PDict _ => false
  end.

Definition Z_of_bool (b : bool) : Z := if b then 1 else 0.

(** [a == b] as dict lookup and [!=] against a scalar evaluate it: booleans
    and integers compare by number, strings by content, tuples and lists
    elementwise.  A dict operand compares unequal here: dicts are
    unhashable, so they are never keys, and the only other comparison in the
    source has the integer [OK] on one side. *)
Fixpoint key_eqb (a b : pyval) {struct a} : bool :=
  match a, b with
  | PNone, PNone => true
  | PBool x, PBool y => Bool.eqb x y
  | PBool x, PInt y => Z_of_bool x =? y
  | PInt x, PBool y => x =? Z_of_bool y
  | PInt x, PInt y => x =? y
  | PStr x, PStr y => String.eqb x y
  | PTuple xs, PTuple ys =>
      (fix go (xs ys : list pyval) {struct xs} : bool :=
         match xs, ys with
         | [], [] => true
         | x :: xs', y :: ys' => key_eqb x y && go xs' ys'
         | _, _ => false
         end) xs ys
  | PList xs, PList ys =>
      (fix go (xs ys : list pyval) {struct xs} : bool :=
         match xs, ys with
         | [], [] => true
         | x :: xs', y :: ys' => key_eqb x y && go xs' ys'
         | _, _ => false
         end) xs ys
  | _, _ => false
  end.

(** [d[k]] lookup by key equality; [None] stands for [KeyError]. *)
Fixpoint dict_find (d : pydict) (k : pyval) : option pyval :=
  match d with
  | [] => None
  | (k', v) :: rest => if key_eqb k' k then Some v else dict_find rest k
  end.

(** [d.get(k, default)] for a hashable [k]. *)
Definition dict_get (d : pydict) (k default : pyval) : pyval :=
  match dict_find d k with
  | Some v => v
  | None => default
  end.

(** The store of [d[k] = v]: an existing key keeps its place and takes the
    new value, a new key goes to the end. *)
Fixpoint dict_store (d : pydict) (k v : pyval) : pydict :=
  match d with
  | [] => [(k, v)]
  | (k', v') :: rest =>
      if key_eqb k' k then (k', v) :: rest else (k', v') :: dict_store rest k v
  end.

(** [d[k] = v]: [TypeError] on an unhashable key. *)
Definition dict_setitem (d : pydict) (k v : pyval) : result pydict :=
  if hashable k then Return (dict_store d k v) else Raise TypeError.

(** The characters of a string, one per byte: exact for ASCII text. *)
Definition chars_of (s : string) : list pyval :=
  map (fun a => PStr (String a EmptyString)) (list_ascii_of_string s).

(** [iter(v)] run to its end: the elements of a sequence, the characters of
    a string, the keys of a dict; [TypeError] on anything else. *)
Definition py_iter (v : pyval) : result (list pyval) :=
  match v with
  | PList l => Return l
  | PTuple l => Return l
  | PStr s => Return (chars_of s)
  | PDict d => Return (map fst d)
  | PNone | PBool _ | PInt _ => Raise TypeError
  end.

(** [v[-1]]. *)
Definition py_getitem_last (v : pyval) : result pyval :=
  match v with
  | PList l | PTuple l =>
      match rev l with
      | x :: _ => Return x
      | [] => Raise IndexError
      end
  | PStr s =>
      match rev (chars_of s) with
      | x :: _ => Return x
      | [] => Raise IndexError
      end
  | PDict d =>
      match dict_find d (PInt (-1)) with
      | Some x => Return x
      | None => Raise KeyError
      end
  | PNone | PBool _ | PInt _ => Raise TypeError
  end.

Definition isinstance_dict (v : pyval) : bool :=
  match v with PDict _ => true | _ => false end.

(** [isinstance(v, (list, tuple))]. *)
Definition isinstance_list_tuple (v : pyval) : bool :=
  match v with PList _ | PTuple _ => true | _ => false end.

(** [(a, b) = v]: [TypeError] when [v] is not iterable, [ValueError] when it
    does not hold exactly two items. *)
Definition unpack2 (v : pyval) : result (pyval * pyval) :=
  items <- py_iter v ;;
  match items with
  | [a; b] => Return (a, b)
  | _ => Raise ValueError
  end.

(** [(a,) = args] on the tuple of extra positional arguments. *)
Definition unpack1 (args : list pyval) : result pyval :=
  match args with
  | [a] => Return a
  | _ => Raise ValueError
  end.

(** ** The transport: [class Socket]

    The kernel socket behind [Socket._sock] is a script: [reads] lists what
    the successive [_sock.recv(buf_size)] calls give, [send_faults] whether
    the successive [_sock.sendall] calls fail, [sent] logs the data of the
    calls that completed (what a failing [sendall] put on the wire before
    it failed is not modelled);
    [connect_fault] and [close_fault] say whether connecting and shutting
    down fail.
    When [reads] is used up the blocking read ends in [socket.timeout]
    ([__init__] sets a timeout on the socket). *)

Definition bytes := list byte.

Inductive recv_result : Type :=
| RecvOk (buf : bytes)
| RecvErr (e : socket_exc).

Record world : Type := mkWorld {
  connect_fault : option socket_exc;
  reads : list recv_result;
  send_faults : list (option socket_exc);
  sent : list bytes;
  close_fault : option socket_exc
}.

Definition set_reads (w : world) (r : list recv_result) : world :=
  mkWorld (connect_fault w) r (send_faults w) (sent w) (close_fault w).

Definition set_sends (w : world) (fs : list (option socket_exc))
  (out : list bytes) : world :=
  mkWorld (connect_fault w) (reads w) fs out (close_fault w).

Record Socket : Type := mkSocket { _sock : nat }.

Definition timed_out : socket_exc := socket_timeout "timed out".

(** [Socket.send]: [self._sock.sendall(data)]. *)
Definition Socket_send (w : world) (data : bytes) : world * result unit :=
  match send_faults w with
  | Some e :: fs => (set_sends w fs (sent w), Raise (SocketException e))
  | None :: fs => (set_sends w fs (sent w ++ [data]), Return tt)
  | [] => (set_sends w [] (sent w ++ [data]), Return tt)
  end.

(** [Socket.__init__]: create, connect, set the timeout. *)
Definition Socket_init (w : world) (fd : nat) : result Socket :=
  match connect_fault w with
  | Some e => Raise (SocketException e)
  | None => Return (mkSocket fd)
  end.

(** [Socket.close]: shutdown of both directions, then close. *)
Definition Socket_close (w : world) : result unit :=
  match close_fault w with
  | Some e => Raise (SocketException e)
  | None => Return tt
  end.

(** [Socket.recv] is a generator; it is embedded together with the [for]
    loop that drives it.  [body] is the loop body, run at each [yield buf]
    on the loop's local state: it gives the new state, what the enclosing
    generator yields meanwhile, and whether it raised.  The generator is
    resumed only when the body returned, so a read is made only then. *)
Section SocketRecv.
Context {S Y : Type}.
Variable buf_size : nat.
Variable body : bytes -> S -> S * list Y * result unit.

Fixpoint Socket_recv (rs : list recv_result) (s : S)
  : list recv_result * S * list Y * result unit :=
  match rs with
  | [] => ([], s, [], Raise (SocketException timed_out))
  | RecvErr e :: rest => (rest, s, [], Raise (SocketException e))
  | RecvOk buf :: rest =>
      match buf with
      | [] => (rest, s, [], Return tt)                 (* if not buf: return *)
      | _ :: _ =>
          match body buf s with                        (* yield buf *)
          | (s', ys, Raise e) => (rest, s', ys, Raise e)
          | (s', ys, Return _) =>
              if (List.length buf <? buf_size)%nat
              then (rest, s', ys, Return tt)           (* short read: return *)
              else
                let '(rest', s'', ys', r) := Socket_recv rest s' in
                (rest', s'', ys ++ ys', r)
          end
      end
  end.
End SocketRecv.

(** The chunks [Socket.recv(buf_size)] yields to a consumer that takes them
    all, how the generator ends, and the reads left. *)
Definition recv_chunks (buf_size : nat) (rs : list recv_result)
  : list recv_result * list bytes * result unit :=
  let '(rest, _, chunks, r) :=
    Socket_recv buf_size (fun buf (_ : unit) => (tt, [buf], Return tt)) rs tt in
  (rest, chunks, r).

Definition default_buf_size : nat := 4096.

(** ** The wire codec (msgpack), an external collaborator

    [packb default] serializes an object, calling the hook [default] on
    what it cannot serialize itself; [unew] is [msgpack.Unpacker()], and
    [ufeed st data] is [unpacker.feed(data)] followed by the iteration over
    the unpacker: the objects completed by [data], then either the decoder
    state waiting for more bytes or the exception the decoder raised. *)
Record Codec : Type := mkCodec {
  packb : (pyval -> result pyval) -> pyval -> result bytes;
  ustate : Type;
  unew : ustate;
  ufeed : ustate -> bytes -> list pyval * result ustate
}.

(** ** [class Connection] *)

Module Connection.

Definition SQLITE_DATE_TYPES : pyval :=
  PTuple [PStr "date"; PStr "datetime"; PStr "timestamp"].
Definition MAX_VARIABLE_NUMBER : Z := 999.
Definition EXECUTE : Z := 1.
Definition EXECUTE_AND_FETCH : Z := 2.
Definition OK : Z := 0.
Definition UNKNOWN_ERROR : Z := 1.
Definition INVALID_REQUEST : Z := 2.
Definition DESERIALIZATION_ERROR : Z := 3.
Definition DATABASE_OPENING_ERROR : Z := 4.
Definition DATABASE_NOT_FOUND : Z := 5.
Definition INVALID_QUERY : Z := 5.
Definition NETWORK_ERROR : Z := 100.
Definition DEFAULT_MESSAGE : string := "Unknown error.".

(** Every name the class body binds, and the attributes the methods set on
    the instance: what [self.<name>] can resolve to. *)
Definition class_names : list string :=
  [ "SQLITE_DATE_TYPES"; "MAX_VARIABLE_NUMBER"; "EXECUTE"; "EXECUTE_AND_FETCH";
    "OK"; "UNKNOWN_ERROR"; "INVALID_REQUEST"; "DESERIALIZATION_ERROR";
    "DATABASE_OPENING_ERROR"; "DATABASE_NOT_FOUND"; "INVALID_QUERY";
    "NETWORK_ERROR"; "DEFAULT_MESSAGE"; "socket_cls";
    "_to_primitive_converters"; "_from_primitive_converters";
    "__init__"; "to_primitive"; "from_primitive"; "register_to_primitive";
    "register_from_primitive"; "_send"; "_recv"; "_construct_row";
    "_check_status"; "_process_reply"; "_connect_to_database"; "_command";
    "execute"; "fetch"; "closed"; "close"; "drop_database" ].

Definition instance_names : list string :=
  [ "_dbname"; "_dbpath"; "_socket"; "_meta_info" ].

Definition has_name (names : list string) (name : string) : bool :=
  existsb (String.eqb name) names.

(** A converter is a Python callable of one argument. *)
Definition converter := pyval -> result pyval.

Inductive pytype : Type :=
| NoneType | bool_t | int_t | str_t | list_t | tuple_t | dict_t.

Definition type_of (v : pyval) : pytype :=
  match v with
  | PNone => NoneType
  | PBool _ => bool_t
  | PInt _ => int_t
  | PStr _ => str_t
  | PList _ => list_t
  | PTuple _ => tuple_t
  | PDict _ => dict_t
  end.

Definition pytype_eqb (a b : pytype) : bool :=
  match a, b with
  | NoneType, NoneType | bool_t, bool_t | int_t, int_t | str_t, str_t
  | list_t, list_t | tuple_t, tuple_t | dict_t, dict_t => true
  | _, _ => false
  end.

(** The two class-level registries, shared by every instance. *)
Record registries : Type := mkRegistries {
  _to_primitive_converters : list (pytype * converter);
  _from_primitive_converters : list (pyval * converter)
}.

(** Both are [{}] in the class body. *)
Definition initial_registries : registries := mkRegistries [] [].

Fixpoint find_type (r : list (pytype * converter)) (t : pytype)
  : option converter :=
  match r with
  | [] => None
  | (t', fn) :: rest => if pytype_eqb t' t then Some fn else find_type rest t
  end.

Fixpoint find_name (r : list (pyval * converter)) (k : pyval)
  : option converter :=
  match r with
  | [] => None
  | (k', fn) :: rest => if key_eqb k' k then Some fn else find_name rest k
  end.

Definition to_primitive (cls : registries) (obj : pyval) : result pyval :=
  match find_type (_to_primitive_converters cls) (type_of obj) with
  | None => Return obj                                   (* except KeyError *)
  | Some fn => fn obj
  end.

(** The subscript hashes [type_name] first: an unhashable one raises
    [TypeError], which [except KeyError] lets through. *)
Definition from_primitive (cls : registries) (value type_name : pyval)
  : result pyval :=
  if hashable type_name then
    match find_name (_from_primitive_converters cls) type_name with
    | None => Return value                               (* except KeyError *)
    | Some fn => fn value
    end
  else Raise TypeError.

(** The store of [registry[key] = fn], as a dict does it: an existing key
    keeps its place and takes the new converter, a new key goes to the
    end. *)
Fixpoint store_type (r : list (pytype * converter)) (t : pytype)
  (fn : converter) : list (pytype * converter) :=
  match r with
  | [] => [(t, fn)]
  | (t', fn') :: rest =>
      if pytype_eqb t' t then (t', fn) :: rest
      else (t', fn') :: store_type rest t fn
  end.

Fixpoint store_name (r : list (pyval * converter)) (k : pyval)
  (fn : converter) : list (pyval * converter) :=
  match r with
  | [] => [(k, fn)]
  | (k', fn') :: rest =>
      if key_eqb k' k then (k', fn) :: rest
      else (k', fn') :: store_name rest k fn
  end.

Definition register_to_primitive (cls : registries) (t : pytype) (fn : converter)
  : registries :=
  mkRegistries (store_type (_to_primitive_converters cls) t fn)
               (_from_primitive_converters cls).

Definition register_from_primitive (cls : registries) (type_name : pyval)
  (fn : converter) : result registries :=
  if hashable type_name then
    Return (mkRegistries (_to_primitive_converters cls)
                         (store_name (_from_primitive_converters cls)
                                     type_name fn))
  else Raise TypeError.

(** The instance: [self._dbname], [self._dbpath], [self._socket] ([None]
    once closed) and [self._meta_info]. *)
Record conn : Type := mkConn {
  _dbname : pyval;
  _dbpath : pyval;
  _socket : option Socket;
  _meta_info : pyval
}.

Definition set_meta_info (c : conn) (m : pyval) : conn :=
  mkConn (_dbname c) (_dbpath c) (_socket c) m.

Definition set_socket (c : conn) (s : option Socket) : conn :=
  mkConn (_dbname c) (_dbpath c) s (_meta_info c).

(** The [closed] property. *)
Definition closed (c : conn) : bool :=
  match _socket c with None => true | Some _ => false end.


(** [self.Error]: attribute lookup on the instance, then on the class.  The
    exception class is imported by the module as the global [Error]; it is
    an attribute of the instance only if one of [names] is ["Error"]. *)
Definition getattr_Error (names : list string)
  : result (pyval -> pyval -> exn) :=
  if has_name names "Error"
  then Return (fun code message => Error code message None)
  else Raise (AttributeError "Error").

(** [_check_status], over the names [self] resolves. *)
Definition _check_status_in (names : list string) (data : pyval)
  : result pyval :=
  match data with
  | PDict d =>
      let status := dict_get d (PStr "status") (PInt UNKNOWN_ERROR) in
      if negb (key_eqb status (PInt OK)) then
        let message := dict_get d (PStr "message") (PStr DEFAULT_MESSAGE) in
        mk <- getattr_Error names ;;
        Raise (mk status message)
      else Return PNone
  | _ => Raise (AttributeError "get")
  end.

Definition _check_status : pyval -> result pyval :=
  _check_status_in (instance_names ++ class_names).

(** The loop of [_construct_row] over the pairs [zip] gives. *)
Fixpoint construct_row_loop (cls : registries) (pairs : list (pyval * pyval))
  (row : pydict) : result pydict :=
  match pairs with
  | [] => Return row
  | (column, value) :: rest =>
      '(col_name, col_type) <- unpack2 column ;;
      v <- from_primitive cls value col_type ;;
      row' <- dict_setitem row col_name v ;;
      construct_row_loop cls rest row'
  end.

(** [zip(a, b)] takes an iterator of [a], then one of [b], and pairs the
    items up to the shorter. *)
Definition py_zip (a b : pyval) : result (list (pyval * pyval)) :=
  xs <- py_iter a ;;
  ys <- py_iter b ;;
  Return (combine xs ys).

Definition _construct_row (cls : registries) (c : conn) (data : pyval)
  : result pyval :=
  pairs <- py_zip (_meta_info c) data ;;
  row <- construct_row_loop cls pairs [] ;;
  Return (PDict row).

(** [data and isinstance(data[-1], (list, tuple))] as a condition. *)
Definition ends_with_sequence (data : pyval) : result bool :=
  if py_truthy data then
    x <- py_getitem_last data ;;
    Return (isinstance_list_tuple x)
  else Return false.

Definition _process_reply (cls : registries) (c : conn) (data : pyval)
  : conn * result pyval :=
  if isinstance_dict data then (c, _check_status data)
  else
    match ends_with_sequence data with
    | Raise e => (c, Raise e)
    | Return true => (set_meta_info c data, Return PNone)
    | Return false => (c, _construct_row cls c data)
    end.

(** [_send]. *)
Definition _send (cls : registries) (cdc : Codec) (c : conn) (w : world) (data : pyval)
  : conn * world * result unit :=
  match packb cdc (to_primitive cls) data with
  | Raise e => (c, w, Raise e)
  | Return serialized =>
      match _socket c with
      | None => (c, w, Raise (AttributeError "send"))
      | Some _ =>
          match Socket_send w serialized with
          | (w', Raise (SocketException exc)) =>
              (set_socket c None, w',
               Raise (Error (PInt NETWORK_ERROR) (PStr (exc_str exc)) (Some exc)))
          | (w', r) => (c, w', r)
          end
      end
  end.

(** The inner loop of [_recv], [for obj in unpacker], over the objects the
    last chunk completed: the replies yielded, and whether
    [_process_reply] raised. *)
Fixpoint recv_objs (cls : registries) (c : conn) (objs : list pyval)
  : conn * list pyval * result unit :=
  match objs with
  | [] => (c, [], Return tt)
  | obj :: rest =>
      match _process_reply cls c obj with
      | (c', Raise e) => (c', [], Raise e)
      | (c', Return reply) =>
          let '(c'', ys, r) := recv_objs cls c' rest in
          ((c'', if py_truthy reply then reply :: ys else ys), r)
      end
  end.

(** The body of [for data in self._socket.recv()]. *)
Definition recv_body (cls : registries) (cdc : Codec) (data : bytes)
  (s : conn * ustate cdc) : conn * ustate cdc * list pyval * result unit :=
  let '(c, u) := s in
  let '(objs, fed) := ufeed cdc u data in
  match recv_objs cls c objs with
  | (c', ys, Raise e) => (c', u, ys, Raise e)
  | (c', ys, Return _) =>
      match fed with
      | Raise e => (c', u, ys, Raise e)
      | Return u' => (c', u', ys, Return tt)
      end
  end.

(** [_recv], a generator, run by a consumer that takes every item: the
    instance and the socket afterwards, the rows yielded, and how the
    iteration ended ([Return tt] is [StopIteration]). *)
Definition _recv (cls : registries) (cdc : Codec) (c : conn) (w : world)
  : conn * world * list pyval * result unit :=
  let c0 := set_meta_info c PNone in
  match _socket c0 with
  | None => (c0, w, [], Raise (AttributeError "recv"))
  | Some _ =>
      let '(rest, (c1, _), ys, r) :=
        Socket_recv default_buf_size (recv_body cls cdc) (reads w)
                    (c0, unew cdc) in
      match r with
      | Raise (SocketException exc) =>
          (set_socket c1 None, set_reads w rest, ys,
           Raise (Error (PInt NETWORK_ERROR) (PStr (exc_str exc)) (Some exc)))
      | _ => (c1, set_reads w rest, ys, r)
      end
  end.

(** [self._send(data)] then [list(self._recv())]. *)
Definition send_and_drain (cls : registries) (cdc : Codec) (c : conn)
  (w : world) (data : pyval) : conn * world * result (list pyval) :=
  match _send cls cdc c w data with
  | (c', w', Raise e) => (c', w', Raise e)
  | (c', w', Return _) =>
      match _recv cls cdc c' w' with
      | (c'', w'', _, Raise e) => (c'', w'', Raise e)
      | (c'', w'', ys, Return _) => (c'', w'', Return ys)
      end
  end.

Definition connect_envelope (c : conn) : pyval :=
  PDict [(PStr "endpoint", PStr "connect");
         (PStr "database", _dbname c);
         (PStr "path", _dbpath c)].

Definition _connect_to_database (cls : registries) (cdc : Codec) (c : conn)
  (w : world) : conn * world * result (list pyval) :=
  send_and_drain cls cdc c w (connect_envelope c).

(** [__init__]. *)
Definition __init__ (cls : registries) (cdc : Codec) (w : world)
  (fd : nat) (database path : pyval) : conn * world * result unit :=
  let c := mkConn database path None PNone in
  match Socket_init w fd with
  | Raise (SocketException exc) =>
      (c, w, Raise (Error (PInt NETWORK_ERROR) (PStr (exc_str exc)) (Some exc)))
  | Raise e => (c, w, Raise e)
  | Return s =>
      match _connect_to_database cls cdc (set_socket c (Some s)) w with
      | (c', w', Raise e) => (c', w', Raise e)
      | (c', w', Return _) => (c', w', Return tt)
      end
  end.

Definition query_envelope (c : conn) (operation : Z) (sql params : pyval)
  : pyval :=
  PDict [(PStr "endpoint", PStr "query");
         (PStr "operation", PInt operation);
         (PStr "database", _dbname c);
         (PStr "query", sql);
         (PStr "parameters", params)].

(** The [params] that [_command] binds from its extra positional
    arguments. *)
Definition command_params (parameters : list pyval) : result pyval :=
  match unpack1 parameters with
  | Return params => Return params
  | Raise ValueError => Return (PTuple [])               (* except ValueError *)
  | Raise e => Raise e
  end.

(** The generator object a call of [_recv()] gives: nothing of its body has
    run yet; iterating it is [_recv] above, on the instance as it is then. *)
Inductive generator : Type := recv_generator.

Definition _command (cls : registries) (cdc : Codec) (c : conn) (w : world) (operation : Z)
  (sql : pyval) (parameters : list pyval) : conn * world * result generator :=
  match command_params parameters with
  | Raise e => (c, w, Raise e)
  | Return params =>
      match _send cls cdc c w (query_envelope c operation sql params) with
      | (c', w', Raise e) => (c', w', Raise e)
      | (c', w', Return _) => (c', w', Return recv_generator)
      end
  end.

Definition execute (cls : registries) (cdc : Codec) (c : conn) (w : world) (sql : pyval)
  (parameters : list pyval) : conn * world * result generator :=
  _command cls cdc c w EXECUTE sql parameters.

Definition fetch (cls : registries) (cdc : Codec) (c : conn) (w : world) (sql : pyval)
  (parameters : list pyval) : conn * world * result generator :=
  _command cls cdc c w EXECUTE_AND_FETCH sql parameters.

(** [close]. *)
Definition close (c : conn) (w : world) : conn * result unit :=
  match _socket c with
  | None => (c, Raise (AttributeError "close"))
  | Some _ =>
      match Socket_close w with
      | Raise e => (c, Raise e)
      | Return _ => (set_socket c None, Return tt)
      end
  end.

Definition drop_envelope (c : conn) : pyval :=
  PDict [(PStr "endpoint", PStr "drop");
         (PStr "database", _dbname c);
         (PStr "path", _dbpath c)].

Definition drop_database (cls : registries) (cdc : Codec) (c : conn)
  (w : world) : conn * world * result (list pyval) :=
  send_and_drain cls cdc c w (drop_envelope c).

(** A command followed by the consumer's iteration of the generator it
    returned, to the end: [list(conn.fetch(sql, ...))]. *)
Definition run_command (cls : registries) (cdc : Codec) (c : conn) (w : world)
  (operation : Z) (sql : pyval) (parameters : list pyval)
  : conn * world * list pyval * result unit :=
  match _command cls cdc c w operation sql parameters with
  | (c', w', Raise e) => (c', w', [], Raise e)
  | (c', w', Return recv_generator) => _recv cls cdc c' w'
  end.

End Connection.

Import Connection.

(** ** Shapes of reply objects, as the data model words them *)

Inductive seq_kind : Type := as_list | as_tuple.

(** A msgpack array, decoded as a list or as a tuple. *)
Definition seq (k : seq_kind) (items : list pyval) : pyval :=
  match k with
  | as_list => PList items
  | as_tuple => PTuple items
  end.

(** The last element of a non-empty list. *)
Fixpoint last_item (l : list pyval) : option pyval :=
  match l with
  | [] => None
  | [x] => Some x
  | _ :: rest => last_item rest
  end.

(** A Metadata object: a non-empty sequence whose last element is itself a
    sequence. *)
Definition metadata_shape (obj : pyval) : bool :=
  match obj with
  | PList l | PTuple l =>
      match last_item l with
      | Some x => isinstance_list_tuple x
      | None => false
      end
  | _ => false
  end.

(** A column of a Metadata object: the pair (name, type name). *)
Definition column_object (k : seq_kind) (col : string * string) : pyval :=
  seq k [PStr (fst col); PStr (snd col)].

Definition metadata_object (k kc : seq_kind) (cols : list (string * string))
  : pyval :=
  seq k (map (column_object kc) cols).

(** The row the data model describes for the columns [cols] and the raw
    values [vals]: position by position up to the shorter of the two, each
    value decoded under the column's type name, stored under the column's
    name. *)
Fixpoint decode_columns (cls : registries) (cols : list (string * string))
  (vals : list pyval) : result (list (pyval * pyval)) :=
  match cols, vals with
  | (name, type_name) :: cols', value :: vals' =>
      v <- from_primitive cls value (PStr type_name) ;;
      rest <- decode_columns cls cols' vals' ;;
      Return ((PStr name, v) :: rest)
  | _, _ => Return []
  end.

Definition store_all (entries : list (pyval * pyval)) (row : pydict) : pydict :=
  fold_left (fun d kv => dict_store d (fst kv) (snd kv)) entries row.

(** The objects a decoder completes over a run of chunks, fed one after
    the other, and the decoder afterwards. *)
Fixpoint feed_all (cdc : Codec) (u : ustate cdc) (chunks : list bytes)
  : list pyval * result (ustate cdc) :=
  match chunks with
  | [] => ([], Return u)
  | chunk :: rest =>
      match ufeed cdc u chunk with
      | (objs, Raise e) => (objs, Raise e)
      | (objs, Return u') =>
          let '(objs', r) := feed_all cdc u' rest in
          (objs ++ objs', r)
      end
  end.

(** A loop body run over a list of chunks, as the [for] loop runs it when
    the chunks are at hand. *)
Fixpoint run_body {S Y : Type} (body : bytes -> S -> S * list Y * result unit)
  (chunks : list bytes) (s : S) : S * list Y * result unit :=
  match chunks with
  | [] => (s, [], Return tt)
  | chunk :: rest =>
      match body chunk s with
      | (s', ys, Raise e) => (s', ys, Raise e)
      | (s', ys, Return _) =>
          let '(s'', ys', r) := run_body body rest s' in
          (s'', ys ++ ys', r)
      end
  end.

(** What the consumer of a command sees: the rows and the way the iteration
    ended. *)
Definition rows_and_end (run : conn * world * list pyval * result unit)
  : list pyval * result unit :=
  let '(_, _, rows, r) := run in (rows, r).

(** Sending one envelope and handing back the reply generator. *)
Definition send_envelope (cls : registries) (cdc : Codec) (c : conn) (w : world) (envelope : pyval)
  : conn * world * result generator :=
  match _send cls cdc c w envelope with
  | (c', w', Raise e) => (c', w', Raise e)
  | (c', w', Return _) => (c', w', Return recv_generator)
  end.

(** Status objects with the [OK] code yield nothing and leave the instance
    as it was. *)
Definition ok_status (obj : pyval) : Prop :=
  isinstance_dict obj = true /\ _check_status obj = Return PNone.

(** A full-size chunk: not empty, and not shorter than the read size. *)
Definition full_chunk (bs : nat) (chunk : bytes) : Prop :=
  chunk <> [] /\ (bs <= List.length chunk)%nat.

(** The error a transport exception is turned into. *)
Definition network_error (e : socket_exc) : exn :=
  Error (PInt NETWORK_ERROR) (PStr (exc_str e)) (Some e).

(** The database name and path of an instance are those of another. *)
Definition same_database (c c' : conn) : Prop :=
  _dbname c' = _dbname c /\ _dbpath c' = _dbpath c.

(** The Metadata object current after a run of reply objects: the last
    Metadata-shaped one that is not a mapping, or the one held before. *)
Definition last_metadata (objs : list pyval) (held : pyval) : pyval :=
  fold_left
    (fun m obj =>
       if isinstance_dict obj then m
       else if metadata_shape obj then obj else m)
    objs held.

(** A list is what is left of another after some of its first items. *)
Definition suffix_of {A : Type} (rest l : list A) : Prop :=
  exists consumed, l = consumed ++ rest.

(** The socket, the database name and the path held by an instance. *)
Definition held (c : conn) : option Socket * pyval * pyval :=
  (_socket c, _dbname c, _dbpath c).

(** An exception that is neither the driver's [Error] nor a socket
    exception. *)
Definition benign (e : exn) : Prop :=
  match e with
  | Error _ _ _ | SocketException _ => False
  | _ => True
  end.

(** The registered decoders raise benign exceptions only. *)
Definition benign_decoders (cls : registries) : Prop :=
  forall k fn value e,
    In (k, fn) (_from_primitive_converters cls) ->
    fn value = Raise e -> benign e.

(** The stream decoder raises benign exceptions only. *)
Definition benign_codec (cdc : Codec) : Prop :=
  forall u data objs e, ufeed cdc u data = (objs, Raise e) -> benign e.

(** A reply that is yielded as a row: a non-empty mapping. *)
Definition nonempty_mapping (v : pyval) : Prop :=
  exists d, v = PDict d /\ d <> [].

(** ** Sample objects *)

Module Sample.

Definition metadata : pyval :=
  PList [PList [PStr "a"; PStr "int"]; PList [PStr "b"; PStr "text"]].
Definition row_1 : pyval := PList [PInt 1; PStr "x"].
Definition row_2 : pyval := PList [PInt 2; PStr "y"].
Definition status_ok : pyval := PDict [(PStr "status", PInt OK)].
Definition status_missing_table : pyval :=
  PDict [(PStr "status", PInt 5); (PStr "message", PStr "no such table")].
Definition status_bare : pyval := PDict [(PStr "status", PInt 1)].

Definition mapping_1 : pyval := PDict [(PStr "a", PInt 1); (PStr "b", PStr "x")].
Definition mapping_2 : pyval := PDict [(PStr "a", PInt 2); (PStr "b", PStr "y")].

Definition reply_stream : list pyval := [metadata; row_1; row_2; status_ok].

(** An open connection whose metadata is unset. *)
Definition open_conn : conn :=
  mkConn (PStr "main") (PStr "/var/lib/main.sqlite") (Some (mkSocket 3)) PNone.

(** A stand-in codec: every byte of the stream is one object, looked up in
    a table; every envelope serializes to one byte. *)
Definition table : list pyval :=
  [metadata; row_1; row_2; status_ok; status_missing_table; PList []].

Definition object_of_byte (b : byte) : pyval :=
  nth (Byte.to_nat b) table PNone.

Definition codec : Codec :=
  mkCodec (fun _ _ => Return [x00]) unit tt
          (fun _ data => (map object_of_byte data, Return tt)).

Definition quiet (rs : list recv_result) : world :=
  mkWorld None rs [] [] None.

End Sample.

(** ** Basic facts *)

Lemma last_item_rev (l : list pyval) :
  last_item l = match rev l with x :: _ => Some x | [] => None end.
Proof.
  induction l as [|a l IH]; [reflexivity|].
  destruct l as [|b l']; [reflexivity|].
  change (last_item (a :: b :: l')) with (last_item (b :: l')).
  rewrite IH. simpl rev.
  destruct (rev l' ++ [b]) eqn:E.
  - destruct (rev l'); discriminate.
  - reflexivity.
Qed.

Lemma last_item_snoc (l : list pyval) (x : pyval) :
  last_item (l ++ [x]) = Some x.
Proof.
  rewrite last_item_rev, rev_app_distr. reflexivity.
Qed.

Lemma py_truthy_seq (k : seq_kind) (l : list pyval) :
  py_truthy (seq k l) = match l with [] => false | _ => true end.
Proof. destruct k; reflexivity. Qed.

Lemma py_iter_seq (k : seq_kind) (l : list pyval) :
  py_iter (seq k l) = Return l.
Proof. destruct k; reflexivity. Qed.

Lemma isinstance_dict_seq (k : seq_kind) (l : list pyval) :
  isinstance_dict (seq k l) = false.
Proof. destruct k; reflexivity. Qed.

Lemma isinstance_list_tuple_seq (k : seq_kind) (l : list pyval) :
  isinstance_list_tuple (seq k l) = true.
Proof. destruct k; reflexivity. Qed.

Lemma chars_of_last_not_sequence (s : string) :
  match rev (chars_of s) with
  | x :: _ => isinstance_list_tuple x = false
  | [] => True
  end.
Proof.
  unfold chars_of. rewrite <- map_rev.
  destruct (rev (list_ascii_of_string s)); simpl; auto.
Qed.

(** The shape test of the source agrees with [metadata_shape] wherever the
    subscript [data[-1]] is defined. *)
Lemma ends_with_sequence_sequence (k : seq_kind) (l : list pyval) :
  ends_with_sequence (seq k l) = Return (metadata_shape (seq k l)).
Proof.
  unfold ends_with_sequence. rewrite py_truthy_seq.
  destruct l as [|a l'].
  - destruct k; reflexivity.
  - assert (H : py_getitem_last (seq k (a :: l')) =
                match rev (a :: l') with x :: _ => Return x | [] => Raise IndexError end)
      by (destruct k; reflexivity).
    rewrite H.
    assert (M : metadata_shape (seq k (a :: l')) =
                match last_item (a :: l') with
                | Some x => isinstance_list_tuple x | None => false end)
      by (destruct k; reflexivity).
    rewrite M, last_item_rev.
    destruct (rev (a :: l')) eqn:E; [|reflexivity].
    simpl in E. destruct (rev l'); discriminate.
Qed.

Lemma ends_with_sequence_string (s : string) :
  ends_with_sequence (PStr s) = Return false.
Proof.
  unfold ends_with_sequence. simpl py_truthy.
  destruct s as [|a s']; [reflexivity|].
  simpl negb. unfold py_getitem_last.
  pose proof (chars_of_last_not_sequence (String a s')) as H.
  destruct (rev (chars_of (String a s'))) eqn:E.
  - unfold chars_of in E. simpl in E.
    destruct (rev (map (fun a0 => PStr (String a0 "")) (list_ascii_of_string s')));
      discriminate.
  - simpl. now rewrite H.
Qed.

(** Whatever the metadata, the row builder raises [TypeError] on an object
    that cannot be iterated. *)
Lemma construct_row_not_iterable cls c data :
  py_iter data = Raise TypeError ->
  _construct_row cls c data = Raise TypeError.
Proof.
  intros H. unfold _construct_row, py_zip.
  destruct (_meta_info c); simpl; rewrite ?H; reflexivity.
Qed.

(** With the metadata unset, [zip] fails on its first argument. *)
Lemma construct_row_unset cls c data :
  _meta_info c = PNone ->
  _construct_row cls c data = Raise TypeError.
Proof.
  intros H. unfold _construct_row, py_zip. now rewrite H.
Qed.

(** [_process_reply] by shape: a mapping goes to [_check_status]; a
    Metadata-shaped object is stored; anything else goes to
    [_construct_row].  An object that cannot be subscripted (a non-zero
    integer, [True]) raises [TypeError] in the shape test, which is what the
    row builder raises on it as well. *)
Lemma process_reply_by_shape cls c data :
  _process_reply cls c data =
  if isinstance_dict data then (c, _check_status data)
  else if metadata_shape data then (set_meta_info c data, Return PNone)
  else (c, _construct_row cls c data).
Proof.
  unfold _process_reply.
  destruct data as [| b | z | s | l | l | d]; simpl isinstance_dict; cbv iota.
  - reflexivity.
  - destruct b; simpl.
    + now rewrite construct_row_not_iterable.
    + reflexivity.
  - unfold ends_with_sequence. simpl py_truthy.
    destruct (z =? 0); simpl.
    + reflexivity.
    + now rewrite construct_row_not_iterable.
  - now rewrite ends_with_sequence_string.
  - pose proof (ends_with_sequence_sequence as_list l) as H.
    simpl seq in H. rewrite H. now destruct (metadata_shape (PList l)).
  - pose proof (ends_with_sequence_sequence as_tuple l) as H.
    simpl seq in H. rewrite H. now destruct (metadata_shape (PTuple l)).
  - reflexivity.
Qed.

(** ** The status check *)

Lemma getattr_Error_self :
  getattr_Error (instance_names ++ class_names) = Raise (AttributeError "Error").
Proof. reflexivity. Qed.

(** A status other than [OK] makes [_check_status] evaluate [self.Error],
    which no name of the instance or of the class resolves. *)
Lemma check_status_not_ok (d : pydict) :
  key_eqb (dict_get d (PStr "status") (PInt UNKNOWN_ERROR)) (PInt OK) = false ->
  _check_status (PDict d) = Raise (AttributeError "Error").
Proof.
  intros H. unfold _check_status, _check_status_in.
  rewrite H. simpl negb. cbv iota. now rewrite getattr_Error_self.
Qed.

Lemma check_status_ok (d : pydict) :
  key_eqb (dict_get d (PStr "status") (PInt UNKNOWN_ERROR)) (PInt OK) = true ->
  _check_status (PDict d) = Return PNone.
Proof.
  intros H. unfold _check_status, _check_status_in. now rewrite H.
Qed.

(** Had the class bound the name [Error] to the imported exception class,
    the status check would raise the protocol error with the status and the
    message, each with its default. *)
Lemma check_status_with_Error_bound (names : list string) (d : pydict) :
  has_name names "Error" = true ->
  _check_status_in names (PDict d) =
  let status := dict_get d (PStr "status") (PInt UNKNOWN_ERROR) in
  if key_eqb status (PInt OK) then Return PNone
  else Raise (Error status (dict_get d (PStr "message") (PStr DEFAULT_MESSAGE)) None).
Proof.
  intros H. unfold _check_status_in, getattr_Error. rewrite H.
  cbv zeta. now destruct (key_eqb _ (PInt OK)).
Qed.

(** C1 (the code departs from the claim).  On the status objects
    [{status: 5, message: "no such table"}] and [{status: 1}] the status
    check raises [AttributeError] for the name [Error], looked up on [self],
    and not the protocol error [Error(5, "no such table")] or
    [Error(1, "Unknown error.")]; the status and the message were read, with
    their defaults, before the lookup failed. *)
Theorem check_status_raises_AttributeError :
  _check_status Sample.status_missing_table = Raise (AttributeError "Error")
  /\ _check_status Sample.status_bare = Raise (AttributeError "Error")
  /\ _check_status_in ("Error" :: instance_names ++ class_names)
       Sample.status_missing_table
     = Raise (Error (PInt 5) (PStr "no such table") None)
  /\ _check_status_in ("Error" :: instance_names ++ class_names)
       Sample.status_bare
     = Raise (Error (PInt 1) (PStr "Unknown error.") None)
  /\ _check_status Sample.status_ok = Return PNone.
Proof. repeat split; reflexivity. Qed.

(** ** The classifier *)

(** C7.  Classification goes by shape, in a fixed order: a mapping is a
    Status object, handed to the status check with the metadata untouched;
    otherwise a sequence ending in a sequence is a Metadata object, stored
    as the current metadata with no row produced; every other object is a
    Row object, handed to the row builder.  The order matters: a mapping
    with a sequence under the key [-1] passes the second test too, and is
    still a Status object. *)
Theorem process_reply_classifies cls c :
  (forall d, _process_reply cls c (PDict d) = (c, _check_status (PDict d)))
  /\ (forall k k' items last,
        _process_reply cls c (seq k (items ++ [seq k' last]))
        = (set_meta_info c (seq k (items ++ [seq k' last])), Return PNone))
  /\ (forall data,
        _process_reply cls c data =
        if isinstance_dict data then (c, _check_status data)
        else if metadata_shape data then (set_meta_info c data, Return PNone)
        else (c, _construct_row cls c data))
  /\ ends_with_sequence (PDict [(PInt (-1), PList [])]) = Return true.
Proof.
  split; [|split; [|split]].
  - intros d. reflexivity.
  - intros k k' items x. rewrite process_reply_by_shape.
    rewrite isinstance_dict_seq.
    assert (M : metadata_shape (seq k (items ++ [seq k' x])) = true).
    { destruct k; simpl; rewrite last_item_snoc; apply isinstance_list_tuple_seq. }
    now rewrite M.
  - intros data. apply process_reply_by_shape.
  - reflexivity.
Qed.

(** ** A Row object with the metadata unset *)

(** C3, as stated, fails: with no Metadata object seen, the row [[1, "x"]]
    makes the classifier raise [TypeError]; no empty mapping comes out. *)
Lemma row_before_metadata_raises :
  _process_reply initial_registries Sample.open_conn Sample.row_1
  = (Sample.open_conn, Raise TypeError)
  /\ _process_reply initial_registries Sample.open_conn Sample.row_1
     <> (Sample.open_conn, Return (PDict [])).
Proof. split; [reflexivity | discriminate]. Qed.

Lemma recv_objs_ok_statuses cls c pre objs :
  Forall ok_status pre ->
  recv_objs cls c (pre ++ objs) = recv_objs cls c objs.
Proof.
  induction 1 as [|obj pre [Hd Hs] _ IH]; [reflexivity|].
  simpl. unfold _process_reply at 1. rewrite Hd, Hs.
  rewrite IH. simpl. now destruct (recv_objs cls c objs) as [[? ?] ?].
Qed.

(** C3, amended.  While the metadata of the cycle is unset, every object
    that is neither a mapping nor Metadata-shaped makes the classifier raise
    [TypeError]; the instance is left as it was and no mapping is produced.
    In a reply cycle this is the Row object that comes after nothing but
    [OK] statuses: the cycle ends there with [TypeError], having yielded no
    row. *)
Theorem row_with_unset_metadata_raises cls c data :
  _meta_info c = PNone ->
  isinstance_dict data = false ->
  metadata_shape data = false ->
  _process_reply cls c data = (c, Raise TypeError)
  /\ forall pre rest,
       Forall ok_status pre ->
       recv_objs cls c (pre ++ data :: rest) = (c, [], Raise TypeError).
Proof.
  intros Hm Hd Hs.
  assert (P : _process_reply cls c data = (c, Raise TypeError)).
  { rewrite process_reply_by_shape, Hd, Hs. now rewrite construct_row_unset. }
  split; [exact P|].
  intros pre rest Hpre. rewrite recv_objs_ok_statuses by exact Hpre.
  simpl. now rewrite P.
Qed.

Lemma row_with_unset_metadata_raises_witness :
  _process_reply initial_registries Sample.open_conn (PList [PInt 7])
  = (Sample.open_conn, Raise TypeError)
  /\ recv_objs initial_registries Sample.open_conn
       ([Sample.status_ok] ++ PList [PInt 7] :: [Sample.status_ok])
     = (Sample.open_conn, [], Raise TypeError).
Proof.
  destruct (row_with_unset_metadata_raises initial_registries Sample.open_conn
              (PList [PInt 7]) eq_refl eq_refl eq_refl) as [P Q].
  split; [exact P|].
  apply Q. repeat constructor.
Defined.

(** ** The row builder *)

Lemma unpack2_column_object kc name type_name :
  unpack2 (column_object kc (name, type_name)) = Return (PStr name, PStr type_name).
Proof. destruct kc; reflexivity. Qed.

Lemma store_all_cons k v entries row :
  store_all ((k, v) :: entries) row = store_all entries (dict_store row k v).
Proof. reflexivity. Qed.

(** The loop of the source against the row of the data model. *)
Lemma construct_row_loop_decodes cls kc cols : forall vals row,
  construct_row_loop cls (combine (map (column_object kc) cols) vals) row =
  (entries <- decode_columns cls cols vals ;; Return (store_all entries row)).
Proof.
  induction cols as [|[name type_name] cols IH]; intros vals row.
  - reflexivity.
  - destruct vals as [|value vals]; [reflexivity|].
    simpl combine. simpl construct_row_loop.
    rewrite unpack2_column_object. simpl bind at 1.
    simpl decode_columns.
    destruct (from_primitive cls value (PStr type_name)) as [v|e]; [|reflexivity].
    simpl bind at 1. unfold dict_setitem. simpl hashable. simpl bind at 1.
    rewrite IH. simpl.
    destruct (decode_columns cls cols vals) as [entries|e]; reflexivity.
Qed.

Lemma decode_columns_keys cls cols : forall vals entries,
  decode_columns cls cols vals = Return entries ->
  map fst entries =
  map (fun col => PStr (fst col))
      (firstn (Nat.min (List.length cols) (List.length vals)) cols).
Proof.
  induction cols as [|[name type_name] cols IH]; intros vals entries H.
  - simpl in H. injection H as <-. reflexivity.
  - destruct vals as [|value vals].
    + simpl in H. injection H as <-. reflexivity.
    + simpl in H.
      destruct (from_primitive cls value (PStr type_name)) as [v|e]; [|discriminate].
      simpl in H.
      destruct (decode_columns cls cols vals) as [rest|e] eqn:E; [|discriminate].
      simpl in H. injection H as <-. simpl. f_equal. now apply IH.
Qed.

Lemma dict_store_fresh (names : list string) (row : pydict) name v :
  map fst row = map PStr names ->
  ~ In name names ->
  dict_store row (PStr name) v = row ++ [(PStr name, v)].
Proof.
  revert names. induction row as [|[k v'] row IH]; intros names Hk Hn.
  - reflexivity.
  - destruct names as [|n names]; [discriminate|].
    simpl in Hk. injection Hk as -> Hk. simpl.
    destruct (String.eqb n name) eqn:E.
    + apply String.eqb_eq in E. exfalso. apply Hn. now left.
    + f_equal. apply (IH names); [exact Hk|]. intros Hin. apply Hn. now right.
Qed.

Lemma store_all_distinct (entries : list (pyval * pyval)) :
  forall (names_e names_r : list string) (row : pydict),
  map fst entries = map PStr names_e ->
  map fst row = map PStr names_r ->
  NoDup (names_r ++ names_e) ->
  store_all entries row = row ++ entries.
Proof.
  induction entries as [|[k v] entries IH]; intros names_e names_r row He Hr Hn.
  - simpl. now rewrite app_nil_r.
  - destruct names_e as [|n names_e]; [discriminate|].
    simpl in He. injection He as -> He.
    rewrite store_all_cons.
    rewrite (dict_store_fresh names_r).
    + rewrite (IH names_e (names_r ++ [n])).
      * now rewrite <- app_assoc.
      * exact He.
      * rewrite !map_app, Hr. reflexivity.
      * now rewrite <- app_assoc.
    + exact Hr.
    + apply NoDup_remove_2 in Hn. intros Hin. apply Hn.
      apply in_or_app. now left.
Qed.

(** C6.  The row built for a Row object under the current metadata is the
    one the data model describes: names and values are paired by position
    up to the shorter of the two, the excess of either being dropped, and
    each value is decoded by [from_primitive] under the type name of its
    column.  The mapping has the column names of the first
    min(len(metadata), len(row)) columns as keys and, when those names are
    distinct, exactly one entry per position, in column order. *)
Theorem construct_row_zips_and_decodes cls c k kc kd cols vals :
  let n := Nat.min (List.length cols) (List.length vals) in
  _construct_row cls (set_meta_info c (metadata_object k kc cols)) (seq kd vals)
  = (entries <- decode_columns cls cols vals ;;
     Return (PDict (store_all entries [])))
  /\ decode_columns cls cols vals
     = decode_columns cls (firstn n cols) (firstn n vals)
  /\ forall entries,
       decode_columns cls cols vals = Return entries ->
       List.length entries = n
       /\ map fst entries = map (fun col => PStr (fst col)) (firstn n cols)
       /\ (NoDup (map fst (firstn n cols)) -> store_all entries [] = entries).
Proof.
  intros n. split; [|split].
  - unfold _construct_row, py_zip, metadata_object. simpl _meta_info.
    rewrite !py_iter_seq. simpl bind at 1. simpl bind at 1. simpl bind at 1.
    rewrite construct_row_loop_decodes.
    destruct (decode_columns cls cols vals); reflexivity.
  - subst n. revert vals. induction cols as [|[name ty] cols IH]; intros vals.
    + reflexivity.
    + destruct vals as [|v vals]; [reflexivity|].
      simpl. now rewrite <- IH.
  - intros entries H.
    pose proof (decode_columns_keys cls cols vals entries H) as K. fold n in K.
    split; [|split].
    + rewrite <- (length_map fst), K, length_map, length_firstn.
      subst n. lia.
    + exact K.
    + intros Hnd.
      apply (store_all_distinct entries (map fst (firstn n cols)) [] []).
      * rewrite K. now rewrite map_map.
      * reflexivity.
      * exact Hnd.
Qed.

(** ** The transport generator *)

Lemma recv_chunks_nil bs :
  recv_chunks bs [] = ([], [], Raise (SocketException timed_out)).
Proof. reflexivity. Qed.

Lemma recv_chunks_err bs e rest :
  recv_chunks bs (RecvErr e :: rest) = (rest, [], Raise (SocketException e)).
Proof. reflexivity. Qed.

Lemma recv_chunks_empty bs rest :
  recv_chunks bs (RecvOk [] :: rest) = (rest, [], Return tt).
Proof. reflexivity. Qed.

Lemma recv_chunks_data bs b buf rest :
  recv_chunks bs (RecvOk (b :: buf) :: rest) =
  if (List.length (b :: buf) <? bs)%nat then (rest, [b :: buf], Return tt)
  else let '(rest', chunks, r) := recv_chunks bs rest in
       (rest', (b :: buf) :: chunks, r).
Proof.
  unfold recv_chunks. cbn [Socket_recv].
  destruct (List.length (b :: buf) <? bs)%nat; [reflexivity|].
  destruct (Socket_recv bs _ rest tt) as [[[rest' u] chunks] r]. reflexivity.
Qed.

(** The shape of what one call of [Socket.recv] yields. *)
Lemma recv_chunks_shape (bs : nat) (rs : list recv_result) :
  let '(rest, chunks, r) := recv_chunks bs rs in
  Forall (fun chunk => chunk <> []) chunks
  /\ (forall before chunk after,
        chunks = before ++ chunk :: after ->
        (List.length chunk < bs)%nat ->
        after = [] /\ r = Return tt)
  /\ (forall full later,
        rs = map RecvOk full ++ RecvOk [] :: later ->
        Forall (full_chunk bs) full ->
        chunks = full /\ r = Return tt /\ rest = later).
Proof.
  induction rs as [|[buf|e] rs IH].
  - rewrite recv_chunks_nil. split; [constructor|split].
    + intros [|? ?] ? ? H; discriminate.
    + intros [|? ?] ? H; discriminate.
  - destruct buf as [|b buf].
    + rewrite recv_chunks_empty. split; [constructor|split].
      * intros [|? ?] ? ? H; discriminate.
      * intros [|f full] later H F.
        -- simpl in H. injection H as <-. auto.
        -- simpl in H. injection H as <- _. inversion F as [|? ? [N _] _].
           now contradiction N.
    + rewrite recv_chunks_data.
      destruct (List.length (b :: buf) <? bs)%nat eqn:L.
      * split; [|split].
        -- constructor; [discriminate|constructor].
        -- intros [|x before] chunk after H _.
           ++ injection H as _ <-. auto.
           ++ injection H as _ H. destruct before; discriminate.
        -- intros [|f full] later H F.
           ++ discriminate.
           ++ simpl in H. injection H as <- _. inversion F as [|? ? [_ G] _].
              apply Nat.ltb_lt in L. lia.
      * destruct (recv_chunks bs rs) as [[rest chunks] r].
        destruct IH as [IH1 [IH2 IH3]]. split; [|split].
        -- constructor; [discriminate|exact IH1].
        -- intros [|x before] chunk after H Hlen.
           ++ injection H as <- _. apply Nat.ltb_ge in L. lia.
           ++ injection H as _ H. now apply (IH2 before chunk after).
        -- intros [|f full] later H F.
           ++ discriminate.
           ++ simpl in H. injection H as <- H. inversion F as [|? ? _ F'].
              destruct (IH3 full later H F') as [-> [-> ->]]. auto.
  - rewrite recv_chunks_err. split; [constructor|split].
    + intros [|? ?] ? ? H; discriminate.
    + intros [|? ?] ? H; discriminate.
Qed.

(** Chunks of the full size are yielded one after the other, and the
    generator goes on with the reads after them. *)
Lemma recv_chunks_full_prefix (bs : nat) (full : list bytes)
  (rs : list recv_result) :
  Forall (full_chunk bs) full ->
  recv_chunks bs (map RecvOk full ++ rs) =
  let '(rest, chunks, r) := recv_chunks bs rs in (rest, full ++ chunks, r).
Proof.
  induction 1 as [|chunk full [N L] _ IH].
  - simpl. now destruct (recv_chunks bs rs) as [[? ?] ?].
  - destruct chunk as [|b buf]; [now contradiction N|].
    simpl map. simpl app. rewrite recv_chunks_data, IH.
    assert (G : (List.length (b :: buf) <? bs)%nat = false)
      by (apply Nat.ltb_ge; exact L).
    rewrite G. now destruct (recv_chunks bs rs) as [[? ?] ?].
Qed.

(** C8.  The chunks one call of [Socket.recv] yields are all non-empty; a
    chunk strictly shorter than the read size is the last one, the
    generator returning after it; when the underlying read gives an empty
    buffer the generator returns at once, having yielded the chunks before
    it and nothing more, the later reads untouched; and when a read gives a
    non-empty buffer shorter than the read size, the generator yields it,
    after the full chunks before it, and returns, the later reads
    untouched. *)
Theorem Socket_recv_chunks_spec (bs : nat) (rs : list recv_result) :
  let '(rest, chunks, r) := recv_chunks bs rs in
  Forall (fun chunk => chunk <> []) chunks
  /\ (forall before chunk after,
        chunks = before ++ chunk :: after ->
        (List.length chunk < bs)%nat ->
        after = [] /\ r = Return tt)
  /\ (forall full later,
        rs = map RecvOk full ++ RecvOk [] :: later ->
        Forall (full_chunk bs) full ->
        chunks = full /\ r = Return tt /\ rest = later)
  /\ (forall full short later,
        rs = map RecvOk full ++ RecvOk short :: later ->
        Forall (full_chunk bs) full ->
        short <> [] ->
        (List.length short < bs)%nat ->
        chunks = full ++ [short] /\ r = Return tt /\ rest = later).
Proof.
  pose proof (recv_chunks_shape bs rs) as H.
  destruct (recv_chunks bs rs) as [[rest chunks] r] eqn:E.
  destruct H as [H1 [H2 H3]].
  split; [exact H1|]. split; [exact H2|]. split; [exact H3|].
  intros full short later Hrs F N L.
  rewrite Hrs, (recv_chunks_full_prefix bs full _ F) in E.
  destruct short as [|b buf]; [now contradiction N|].
  rewrite recv_chunks_data in E.
  apply Nat.ltb_lt in L. rewrite L in E.
  injection E as <- <- <-. auto.
Qed.

(** ** The reply cycle *)

(** When the loop body raises on none of the chunks, the [for] loop over
    [Socket.recv] reads what the generator reads on its own, and the body
    has run over every chunk. *)
Lemma Socket_recv_run_body {S Y : Type} (bs : nat)
  (body : bytes -> S -> S * list Y * result unit) (rs : list recv_result) :
  forall s rest chunks r s' ys,
  recv_chunks bs rs = (rest, chunks, r) ->
  run_body body chunks s = (s', ys, Return tt) ->
  Socket_recv bs body rs s = (rest, s', ys, r).
Proof.
  induction rs as [|[buf|e] rs IH]; intros s rest chunks r s' ys Hc Hb.
  - rewrite recv_chunks_nil in Hc. injection Hc as <- <- <-.
    simpl in Hb. injection Hb as <- <-. reflexivity.
  - destruct buf as [|b buf].
    + rewrite recv_chunks_empty in Hc. injection Hc as <- <- <-.
      simpl in Hb. injection Hb as <- <-. reflexivity.
    + rewrite recv_chunks_data in Hc. cbn [Socket_recv].
      destruct (List.length (b :: buf) <? bs)%nat.
      * injection Hc as <- <- <-. simpl in Hb.
        destruct (body (b :: buf) s) as [[s1 ys1] [[]|e]]; [|discriminate].
        injection Hb as <- <-. now rewrite app_nil_r.
      * destruct (recv_chunks bs rs) as [[rest0 chunks0] r0] eqn:E.
        injection Hc as <- <- <-. simpl in Hb.
        destruct (body (b :: buf) s) as [[s1 ys1] [[]|e]]; [|discriminate].
        destruct (run_body body chunks0 s1) as [[s2 ys2] r2] eqn:R.
        injection Hb as <- <- ->.
        now rewrite (IH s1 rest0 chunks0 r0 s2 ys2 eq_refl R).
  - rewrite recv_chunks_err in Hc. injection Hc as <- <- <-.
    simpl in Hb. injection Hb as <- <-. reflexivity.
Qed.

Lemma recv_objs_app cls (a b : list pyval) : forall c,
  recv_objs cls c (a ++ b) =
  match recv_objs cls c a with
  | (c', ys, Raise e) => (c', ys, Raise e)
  | (c', ys, Return _) =>
      let '(c'', ys', r) := recv_objs cls c' b in (c'', ys ++ ys', r)
  end.
Proof.
  induction a as [|obj a IH]; intros c.
  - simpl. now destruct (recv_objs cls c b) as [[? ?] ?].
  - simpl. destruct (_process_reply cls c obj) as [c1 [reply|e]]; [|reflexivity].
    rewrite IH.
    destruct (recv_objs cls c1 a) as [[c2 ys] [[]|e]]; [|reflexivity].
    destruct (recv_objs cls c2 b) as [[c3 ys'] r].
    now destruct (py_truthy reply).
Qed.

(** When neither the decoder nor the classifier raises, the body of the
    cycle has processed, in order, the objects the chunks decode to. *)
Lemma run_body_recv_body cls cdc (chunks : list bytes) :
  forall c u objs u' c1 ys,
  feed_all cdc u chunks = (objs, Return u') ->
  recv_objs cls c objs = (c1, ys, Return tt) ->
  run_body (recv_body cls cdc) chunks (c, u) = (c1, u', ys, Return tt).
Proof.
  induction chunks as [|chunk chunks IH]; intros c u objs u' c1 ys Hf Ho.
  - simpl in Hf. injection Hf as <- <-. simpl in Ho.
    injection Ho as <- <-. reflexivity.
  - simpl in Hf. simpl run_body. unfold recv_body at 1.
    destruct (ufeed cdc u chunk) as [objs1 [u1|e]]; [|discriminate].
    destruct (feed_all cdc u1 chunks) as [objs2 r2] eqn:F.
    injection Hf as <- ->.
    rewrite recv_objs_app in Ho.
    destruct (recv_objs cls c objs1) as [[cm ys1] [[]|e]]; [|discriminate].
    destruct (recv_objs cls cm objs2) as [[c2 ys2] r] eqn:O.
    injection Ho as <- <- ->.
    pose proof (IH cm u1 objs2 u' c2 ys2 F O) as R.
    unfold recv_body in R. now rewrite R.
Qed.

(** The reply cycle of an open connection over a stream that decodes, and
    is classified, without an exception: the rows are those of the decoded
    objects, and the cycle ends as the transport generator ends, a
    transport exception closing the connection and coming out as the
    network error. *)
Lemma recv_of_stream cls cdc c w s rest chunks r objs u' c1 ys :
  _socket c = Some s ->
  recv_chunks default_buf_size (reads w) = (rest, chunks, r) ->
  feed_all cdc (unew cdc) chunks = (objs, Return u') ->
  recv_objs cls (set_meta_info c PNone) objs = (c1, ys, Return tt) ->
  _recv cls cdc c w =
  match r with
  | Raise (SocketException exc) =>
      (set_socket c1 None, set_reads w rest, ys,
       Raise (Error (PInt NETWORK_ERROR) (PStr (exc_str exc)) (Some exc)))
  | _ => (c1, set_reads w rest, ys, r)
  end.
Proof.
  intros Hs Hc Hf Ho. unfold _recv. simpl _socket. rewrite Hs.
  rewrite (Socket_recv_run_body default_buf_size (recv_body cls cdc) (reads w)
             (set_meta_info c PNone, unew cdc) rest chunks r (c1, u') ys Hc
             (run_body_recv_body cls cdc chunks _ _ objs u' c1 ys Hf Ho)).
  reflexivity.
Qed.

(** [_send] on an open connection. *)
Lemma send_open cls cdc c w data s serialized :
  _socket c = Some s ->
  packb cdc (to_primitive cls) data = Return serialized ->
  _send cls cdc c w data =
  match send_faults w with
  | Some e :: fs =>
      (set_socket c None, set_sends w fs (sent w),
       Raise (Error (PInt NETWORK_ERROR) (PStr (exc_str e)) (Some e)))
  | None :: fs => (c, set_sends w fs (sent w ++ [serialized]), Return tt)
  | [] => (c, set_sends w [] (sent w ++ [serialized]), Return tt)
  end.
Proof.
  intros Hs Hp. unfold _send, Socket_send. rewrite Hp, Hs.
  destruct (send_faults w) as [|[e|] fs]; reflexivity.
Qed.

(** [_send] returns only on an open connection, which it leaves as it
    was, the reads untouched. *)
Lemma send_returns cls cdc c w data c' w' :
  _send cls cdc c w data = (c', w', Return tt) ->
  c' = c /\ reads w' = reads w /\ exists s, _socket c = Some s.
Proof.
  unfold _send, Socket_send.
  destruct (packb cdc (to_primitive cls) data); [|discriminate].
  destruct (_socket c) as [s|] eqn:Hs; [|discriminate].
  destruct (send_faults w) as [|[e|] fs]; intros H; try discriminate;
    injection H as <- <-; eauto.
Qed.

Lemma command_params_returns (parameters : list pyval) :
  command_params parameters =
  Return match parameters with [a] => a | _ => PTuple [] end.
Proof.
  destruct parameters as [|a [|b rest]]; reflexivity.
Qed.

Lemma command_returns cls cdc c w operation sql parameters c1 w1 g :
  _command cls cdc c w operation sql parameters = (c1, w1, Return g) ->
  c1 = c /\ reads w1 = reads w /\ exists s, _socket c = Some s.
Proof.
  unfold _command. rewrite command_params_returns.
  destruct (_send cls cdc c w _) as [[c' w'] [[]|e]] eqn:E; [|discriminate].
  intros H. injection H as <- <- _. exact (send_returns _ _ _ _ _ _ _ E).
Qed.

(** The sample reply stream, classified from the unset metadata under
    registries that hold no decoder for the type names [int] and [text]. *)
Lemma recv_objs_sample_stream cls c :
  find_name (_from_primitive_converters cls) (PStr "int") = None ->
  find_name (_from_primitive_converters cls) (PStr "text") = None ->
  recv_objs cls (set_meta_info c PNone) Sample.reply_stream
  = (set_meta_info c Sample.metadata,
     [Sample.mapping_1; Sample.mapping_2], Return tt).
Proof.
  intros Hint Htext.
  assert (R : forall v w0,
            _construct_row cls (set_meta_info c Sample.metadata) (PList [v; w0])
            = Return (PDict [(PStr "a", v); (PStr "b", w0)])).
  { intros v w0. unfold _construct_row, py_zip. simpl.
    unfold from_primitive. simpl hashable. cbv iota.
    rewrite Hint. simpl. unfold from_primitive. simpl hashable. cbv iota.
    rewrite Htext. reflexivity. }
  assert (P0 : _process_reply cls (set_meta_info c PNone) Sample.metadata
               = (set_meta_info c Sample.metadata, Return PNone))
    by reflexivity.
  assert (P1 : _process_reply cls (set_meta_info c Sample.metadata) Sample.row_1
               = (set_meta_info c Sample.metadata, Return Sample.mapping_1))
    by (rewrite process_reply_by_shape; simpl; unfold Sample.row_1;
        now rewrite R).
  assert (P2 : _process_reply cls (set_meta_info c Sample.metadata) Sample.row_2
               = (set_meta_info c Sample.metadata, Return Sample.mapping_2))
    by (rewrite process_reply_by_shape; simpl; unfold Sample.row_2;
        now rewrite R).
  assert (P3 : _process_reply cls (set_meta_info c Sample.metadata)
                 Sample.status_ok
               = (set_meta_info c Sample.metadata, Return PNone))
    by reflexivity.
  unfold Sample.reply_stream. cbn [recv_objs].
  rewrite P0, P1, P2, P3. reflexivity.
Qed.

(** C2.  When [fetch] has sent its envelope and the reply stream decodes to
    the Metadata object for the columns a:int and b:text, the rows
    [[1, "x"]] and [[2, "y"]] and a Status object with the [OK] code, the
    iteration of the generator yields the two mappings
    [{"a": 1, "b": "x"}] and [{"a": 2, "b": "y"}], in that order, and ends
    without an exception.  No decoder is registered for the type names
    [int] and [text], as in the registries the class starts with. *)
Theorem fetch_yields_the_two_rows cls cdc c w sql parameters c1 w1 rest chunks u' :
  find_name (_from_primitive_converters cls) (PStr "int") = None ->
  find_name (_from_primitive_converters cls) (PStr "text") = None ->
  fetch cls cdc c w sql parameters = (c1, w1, Return recv_generator) ->
  recv_chunks default_buf_size (reads w1) = (rest, chunks, Return tt) ->
  feed_all cdc (unew cdc) chunks = (Sample.reply_stream, Return u') ->
  run_command cls cdc c w EXECUTE_AND_FETCH sql parameters
  = (set_meta_info c1 Sample.metadata, set_reads w1 rest,
     [Sample.mapping_1; Sample.mapping_2], Return tt).
Proof.
  intros Hint Htext Hf Hc Hd. unfold run_command. unfold fetch in Hf. rewrite Hf.
  destruct (command_returns _ _ _ _ _ _ _ _ _ _ Hf) as [-> [_ [s Hs]]].
  rewrite (recv_of_stream cls cdc c w1 s rest chunks (Return tt)
             Sample.reply_stream u' (set_meta_info c Sample.metadata)
             [Sample.mapping_1; Sample.mapping_2] Hs Hc Hd
             (recv_objs_sample_stream cls c Hint Htext)).
  reflexivity.
Qed.

Lemma fetch_yields_the_two_rows_witness :
  run_command initial_registries Sample.codec Sample.open_conn
    (Sample.quiet [RecvOk [x00; x01; x02; x03]]) EXECUTE_AND_FETCH
    (PStr "SELECT a, b FROM t") []
  = (set_meta_info Sample.open_conn Sample.metadata,
     set_reads (mkWorld None [RecvOk [x00; x01; x02; x03]] [] [[x00]] None) [],
     [Sample.mapping_1; Sample.mapping_2], Return tt).
Proof.
  apply (fetch_yields_the_two_rows initial_registries Sample.codec
           Sample.open_conn (Sample.quiet [RecvOk [x00; x01; x02; x03]])
           (PStr "SELECT a, b FROM t") [] Sample.open_conn
           (mkWorld None [RecvOk [x00; x01; x02; x03]] [] [[x00]] None)
           [] [[x00; x01; x02; x03]] tt); reflexivity.
Defined.

(** A column has to come as a pair: a sequence of the strings ["a:int"] and
    ["b:text"] does not end in a sequence, so it is a Row object, and with
    the metadata unset the cycle ends in [TypeError]. *)
Lemma columns_as_strings_are_a_row :
  metadata_shape (PList [PStr "a:int"; PStr "b:text"]) = false
  /\ recv_objs initial_registries Sample.open_conn
       [PList [PStr "a:int"; PStr "b:text"]; Sample.row_1; Sample.row_2;
        Sample.status_ok]
     = (Sample.open_conn, [], Raise TypeError).
Proof. split; reflexivity. Qed.

(** ** Transport failures *)

(** C5.  On an open connection, a transport exception [e] raised by the
    socket during a send, or during a receive that the reply cycle reaches,
    comes out as the error with the code [NETWORK_ERROR] = 100, the text of
    [e] and [e] itself as its cause, and the connection is closed
    afterwards.  This holds for [_send], for a command ([execute], [fetch])
    whose send fails, and for the iteration of the reply generator. *)
Theorem transport_failure_closes cls cdc c w s e :
  _socket c = Some s ->
  let network_error :=
    Error (PInt 100) (PStr (exc_str e)) (Some e) in
  (forall data serialized fs,
     packb cdc (to_primitive cls) data = Return serialized ->
     send_faults w = Some e :: fs ->
     _send cls cdc c w data
     = (set_socket c None, set_sends w fs (sent w), Raise network_error)
     /\ closed (set_socket c None) = true)
  /\ (forall operation sql parameters params serialized fs,
        command_params parameters = Return params ->
        packb cdc (to_primitive cls) (query_envelope c operation sql params) = Return serialized ->
        send_faults w = Some e :: fs ->
        run_command cls cdc c w operation sql parameters
        = (set_socket c None, set_sends w fs (sent w), [], Raise network_error))
  /\ (forall rest chunks objs u' c1 rows,
        recv_chunks default_buf_size (reads w)
        = (rest, chunks, Raise (SocketException e)) ->
        feed_all cdc (unew cdc) chunks = (objs, Return u') ->
        recv_objs cls (set_meta_info c PNone) objs = (c1, rows, Return tt) ->
        _recv cls cdc c w
        = (set_socket c1 None, set_reads w rest, rows, Raise network_error)
        /\ closed (set_socket c1 None) = true).
Proof.
  intros Hs network_error. split; [|split].
  - intros data serialized fs Hp Hf.
    rewrite (send_open cls cdc c w data s serialized Hs Hp), Hf. auto.
  - intros operation sql parameters params serialized fs Hc Hp Hf.
    unfold run_command, _command. rewrite Hc.
    rewrite (send_open cls cdc c w _ s serialized Hs Hp), Hf. reflexivity.
  - intros rest chunks objs u' c1 rows Hc Hd Ho.
    rewrite (recv_of_stream cls cdc c w s rest chunks _ objs u' c1 rows
               Hs Hc Hd Ho). auto.
Qed.

Lemma transport_failure_closes_witness :
  let e := socket_error "Connection reset by peer" in
  let w := mkWorld None [RecvOk (repeat x03 4096); RecvErr e] [Some e] [] None in
  _send initial_registries Sample.codec Sample.open_conn w (PStr "ping")
  = (set_socket Sample.open_conn None, set_sends w [] [],
     Raise (Error (PInt 100) (PStr "Connection reset by peer") (Some e)))
  /\ _recv initial_registries Sample.codec Sample.open_conn w
     = (set_socket Sample.open_conn None, set_reads w [], [],
        Raise (Error (PInt 100) (PStr "Connection reset by peer") (Some e))).
Proof.
  intros e w.
  destruct (transport_failure_closes initial_registries Sample.codec
              Sample.open_conn w (mkSocket 3) e eq_refl) as [Hsend [_ Hrecv]].
  split.
  - exact (proj1 (Hsend (PStr "ping") [x00] [] eq_refl eq_refl)).
  - refine (proj1 (Hrecv [] [repeat x03 4096] (repeat Sample.status_ok 4096) tt
                     (set_meta_info Sample.open_conn PNone) [] _ _ _));
      vm_compute; reflexivity.
Defined.

(** ** What a reply cycle yields *)

(** A reply the classifier returns is [None] or a mapping. *)
Lemma process_reply_value cls c obj c' v :
  _process_reply cls c obj = (c', Return v) ->
  v = PNone \/ exists d, v = PDict d.
Proof.
  rewrite process_reply_by_shape.
  destruct (isinstance_dict obj) eqn:D.
  - destruct obj; try discriminate.
    unfold _check_status, _check_status_in.
    destruct (negb _).
    + rewrite getattr_Error_self. discriminate.
    + intros H. injection H as _ <-. now left.
  - destruct (metadata_shape obj).
    + intros H. injection H as _ <-. now left.
    + unfold _construct_row. intros H. injection H as _ H.
      destruct (py_zip (_meta_info c) obj) as [pairs|e]; [|discriminate].
      simpl in H.
      destruct (construct_row_loop cls pairs []) as [row|e]; [|discriminate].
      simpl in H. injection H as <-. right. now exists row.
Qed.

Lemma truthy_reply_nonempty_mapping v :
  v = PNone \/ (exists d, v = PDict d) ->
  py_truthy v = true ->
  nonempty_mapping v.
Proof.
  intros [->|[d ->]] H; [discriminate|].
  exists d. split; [reflexivity|]. now destruct d.
Qed.

Lemma recv_objs_yields cls (objs : list pyval) : forall c,
  Forall nonempty_mapping (snd (fst (recv_objs cls c objs))).
Proof.
  induction objs as [|obj objs IH]; intros c; [constructor|].
  simpl. destruct (_process_reply cls c obj) as [c1 [reply|e]] eqn:E;
    [|constructor].
  specialize (IH c1).
  destruct (recv_objs cls c1 objs) as [[c2 ys] r]. simpl in *.
  destruct (py_truthy reply) eqn:T; [|exact IH].
  constructor; [|exact IH].
  apply truthy_reply_nonempty_mapping; [|exact T].
  exact (process_reply_value _ _ _ _ _ E).
Qed.

Lemma recv_body_yields cls cdc data s :
  Forall nonempty_mapping (snd (fst (recv_body cls cdc data s))).
Proof.
  destruct s as [c u]. unfold recv_body.
  destruct (ufeed cdc u data) as [objs fed].
  pose proof (recv_objs_yields cls objs c) as H.
  destruct (recv_objs cls c objs) as [[c' ys] [[]|e]]; [|exact H].
  destruct fed; exact H.
Qed.

(** The [for] loop yields nothing that its body does not yield. *)
Lemma Socket_recv_yields {S Y : Type} (P : Y -> Prop) (bs : nat)
  (body : bytes -> S -> S * list Y * result unit) :
  (forall buf s, Forall P (snd (fst (body buf s)))) ->
  forall rs s, Forall P (snd (fst (Socket_recv bs body rs s))).
Proof.
  intros Hb. induction rs as [|[buf|e] rs IH]; intros s; try constructor.
  destruct buf as [|b buf]; [constructor|].
  cbn [Socket_recv]. specialize (Hb (b :: buf) s).
  destruct (body (b :: buf) s) as [[s1 ys1] [[]|e]]; [|exact Hb].
  destruct (List.length (b :: buf) <? bs)%nat; [exact Hb|].
  specialize (IH s1).
  destruct (Socket_recv bs body rs s1) as [[[rest s2] ys2] r].
  simpl in *. apply Forall_app. now split.
Qed.

Lemma recv_yields cls cdc c w :
  Forall nonempty_mapping (fst (rows_and_end (_recv cls cdc c w))).
Proof.
  unfold _recv. simpl _socket.
  destruct (_socket c); [|constructor].
  pose proof (Socket_recv_yields nonempty_mapping default_buf_size
                (recv_body cls cdc) (recv_body_yields cls cdc)
                (reads w) (set_meta_info c PNone, unew cdc)) as H.
  destruct (Socket_recv default_buf_size (recv_body cls cdc) (reads w) _)
    as [[[rest [c1 u1]] ys] r].
  simpl in H. destruct r as [[]|[]]; exact H.
Qed.

(** C9.  No reply cycle surfaces an empty mapping: every row yielded by the
    reply generator, and so by a command, is a non-empty mapping.  A reply
    that is an empty mapping is passed over without an exception, the cycle
    going on with the next object; so is the empty row [[]] under the
    metadata of the sample, whose mapping is empty. *)
Theorem recv_never_yields_empty_mapping cls cdc c w :
  Forall nonempty_mapping (fst (rows_and_end (_recv cls cdc c w)))
  /\ (forall operation sql parameters,
        Forall nonempty_mapping
          (fst (rows_and_end (run_command cls cdc c w operation sql parameters))))
  /\ (forall obj c' rest,
        _process_reply cls c obj = (c', Return (PDict [])) ->
        recv_objs cls c (obj :: rest) = recv_objs cls c' rest)
  /\ _process_reply cls (set_meta_info c Sample.metadata) (PList [])
     = (set_meta_info c Sample.metadata, Return (PDict [])).
Proof.
  split; [|split; [|split]].
  - apply recv_yields.
  - intros operation sql parameters. unfold run_command.
    destruct (_command cls cdc c w operation sql parameters) as [[c1 w1] [[]|e]].
    + apply recv_yields.
    + constructor.
  - intros obj c' rest H. simpl. rewrite H.
    now destruct (recv_objs cls c' rest) as [[? ?] ?].
  - reflexivity.
Qed.

(** ** Metadata across commands *)

Lemma recv_resets_metadata cls cdc c w m :
  _recv cls cdc (set_meta_info c m) w = _recv cls cdc c w.
Proof. reflexivity. Qed.

Lemma send_ignores_metadata cls cdc c w data m :
  _send cls cdc (set_meta_info c m) w data =
  let '(c', w', r) := _send cls cdc c w data in (set_meta_info c' m, w', r).
Proof.
  unfold _send. destruct (packb cdc (to_primitive cls) data); [|reflexivity].
  simpl _socket. destruct (_socket c); [|reflexivity].
  destruct (Socket_send w a) as [w' [[]|[]]]; reflexivity.
Qed.

Lemma run_command_ignores_metadata cls cdc c w operation sql parameters m :
  rows_and_end (run_command cls cdc (set_meta_info c m) w operation sql parameters)
  = rows_and_end (run_command cls cdc c w operation sql parameters).
Proof.
  unfold run_command, _command. rewrite command_params_returns.
  change (query_envelope (set_meta_info c m)) with (query_envelope c).
  rewrite send_ignores_metadata.
  destruct (_send cls cdc c w _) as [[c' w'] [[]|e]]; [|reflexivity].
  now rewrite recv_resets_metadata.
Qed.

(** C4.  The reply generator sets the metadata to unset before it reads
    anything, so a cycle runs the same whatever metadata the instance held;
    and of two commands run one after the other, the second yields the rows
    and ends the way it would with the metadata unset: nothing the first
    command stored takes part in its rows. *)
Theorem metadata_is_reset_each_cycle cls cdc c w :
  _recv cls cdc c w = _recv cls cdc (set_meta_info c PNone) w
  /\ (forall m, _recv cls cdc (set_meta_info c m) w = _recv cls cdc c w)
  /\ (forall op1 sql1 ps1 op2 sql2 ps2,
        let '(c1, w1, _, _) := run_command cls cdc c w op1 sql1 ps1 in
        rows_and_end (run_command cls cdc c1 w1 op2 sql2 ps2)
        = rows_and_end
            (run_command cls cdc (set_meta_info c1 PNone) w1 op2 sql2 ps2)).
Proof.
  split; [|split].
  - symmetry. apply recv_resets_metadata.
  - intros m. apply recv_resets_metadata.
  - intros op1 sql1 ps1 op2 sql2 ps2.
    destruct (run_command cls cdc c w op1 sql1 ps1) as [[[c1 w1] rows1] r1].
    symmetry. apply run_command_ignores_metadata.
Qed.

(** The metadata of a first command is not used by a second one: the second
    reply carries a row and no Metadata object, and ends in [TypeError]
    without a row. *)
Lemma metadata_does_not_leak :
  let w := Sample.quiet [RecvOk [x00; x01; x03]; RecvOk [x02; x03]] in
  let '(c1, w1, rows1, r1) :=
    run_command initial_registries Sample.codec Sample.open_conn w
      EXECUTE_AND_FETCH (PStr "SELECT a, b FROM t") [] in
  rows1 = [Sample.mapping_1] /\ r1 = Return tt
  /\ _meta_info c1 = Sample.metadata
  /\ rows_and_end
       (run_command initial_registries Sample.codec c1 w1
          EXECUTE_AND_FETCH (PStr "SELECT a, b FROM u") [])
     = ([], Raise TypeError).
Proof. vm_compute. repeat split. Qed.

(** ** The parameters of a command *)

Lemma command_sends cls cdc c w operation sql parameters :
  _command cls cdc c w operation sql parameters =
  send_envelope cls cdc c w
    (query_envelope c operation sql
       match parameters with [a] => a | _ => PTuple [] end).
Proof.
  unfold _command, send_envelope. now rewrite command_params_returns.
Qed.

(** C10.  With two or more positional arguments after the SQL text,
    [execute] and [fetch] raise nothing for the failed unpacking: they send
    the query envelope with [parameters] equal to the empty tuple, the
    arguments given being dropped; with exactly one argument they send it
    as [parameters], unchanged.  On an open connection whose send succeeds
    the bytes that go out are the serialized envelope. *)
Theorem command_parameters cls cdc c w sql :
  (forall a b more,
     unpack1 (a :: b :: more) = Raise ValueError
     /\ command_params (a :: b :: more) = Return (PTuple [])
     /\ execute cls cdc c w sql (a :: b :: more)
        = send_envelope cls cdc c w (query_envelope c EXECUTE sql (PTuple []))
     /\ fetch cls cdc c w sql (a :: b :: more)
        = send_envelope cls cdc c w
            (query_envelope c EXECUTE_AND_FETCH sql (PTuple [])))
  /\ (forall a,
        execute cls cdc c w sql [a]
        = send_envelope cls cdc c w (query_envelope c EXECUTE sql a)
        /\ fetch cls cdc c w sql [a]
           = send_envelope cls cdc c w (query_envelope c EXECUTE_AND_FETCH sql a))
  /\ (forall operation params,
        exists d,
          query_envelope c operation sql params = PDict d
          /\ dict_find d (PStr "parameters") = Some params)
  /\ (forall envelope s serialized,
        _socket c = Some s ->
        packb cdc (to_primitive cls) envelope = Return serialized ->
        hd None (send_faults w) = None ->
        send_envelope cls cdc c w envelope
        = (c, set_sends w (tl (send_faults w)) (sent w ++ [serialized]),
           Return recv_generator)).
Proof.
  split; [|split; [|split]].
  - intros a b more. repeat split; apply command_sends.
  - intros a. split; apply command_sends.
  - intros operation params. eexists. split; reflexivity.
  - intros envelope s serialized Hs Hp Hf. unfold send_envelope.
    rewrite (send_open cls cdc c w envelope s serialized Hs Hp).
    destruct (send_faults w) as [|[e|] fs]; try discriminate; reflexivity.
Qed.

(** [execute("INSERT", 1, 2)] on the sample connection: the envelope that
    goes to [_send] has the empty tuple as its parameters. *)
Lemma execute_with_two_arguments :
  execute initial_registries Sample.codec Sample.open_conn (Sample.quiet [])
    (PStr "INSERT") [PInt 1; PInt 2]
  = send_envelope initial_registries Sample.codec Sample.open_conn
      (Sample.quiet [])
      (PDict [(PStr "endpoint", PStr "query");
              (PStr "operation", PInt 1);
              (PStr "database", PStr "main");
              (PStr "query", PStr "INSERT");
              (PStr "parameters", PTuple [])]).
Proof. reflexivity. Qed.

(** ** The value converters *)

Lemma pytype_eqb_eq (a b : pytype) : pytype_eqb a b = true <-> a = b.
Proof. destruct a, b; simpl; split; intros H; congruence. Qed.

Lemma find_store_type (r : list (pytype * converter)) t fn t' :
  find_type (store_type r t fn) t' =
  if pytype_eqb t t' then Some fn else find_type r t'.
Proof.
  induction r as [|[t0 fn0] r IH]; simpl.
  - reflexivity.
  - destruct (pytype_eqb t0 t) eqn:E; simpl.
    + apply pytype_eqb_eq in E. subst t0.
      now destruct (pytype_eqb t t').
    + destruct (pytype_eqb t0 t') eqn:E'.
      * apply pytype_eqb_eq in E'. subst t0.
        destruct (pytype_eqb t t') eqn:E''; [|reflexivity].
        apply pytype_eqb_eq in E''. subst t'.
        assert (pytype_eqb t t = true) by now apply pytype_eqb_eq.
        congruence.
      * exact IH.
Qed.

(** Only a string is equal, as a key, to a string. *)
Lemma key_eqb_string_r (k : pyval) (name : string) :
  key_eqb k (PStr name) = true -> k = PStr name.
Proof.
  destruct k as [|b|z|s|l|l|d]; simpl; try discriminate.
  intros H. apply String.eqb_eq in H. now subst.
Qed.

Lemma key_eqb_string_l (k : pyval) (name : string) :
  key_eqb (PStr name) k = key_eqb k (PStr name).
Proof.
  destruct k as [|b|z|s|l|l|d]; simpl; try reflexivity.
  apply String.eqb_sym.
Qed.

Lemma find_store_name (r : list (pyval * converter)) name fn k :
  find_name (store_name r (PStr name) fn) k =
  if key_eqb (PStr name) k then Some fn else find_name r k.
Proof.
  induction r as [|[k0 fn0] r IH]; simpl find_name.
  - simpl. now destruct k.
  - simpl store_name. destruct (key_eqb k0 (PStr name)) eqn:E; simpl find_name.
    + apply key_eqb_string_r in E. subst k0.
      now destruct (key_eqb (PStr name) k).
    + destruct (key_eqb k0 k) eqn:E'.
      * destruct (key_eqb (PStr name) k) eqn:E''; [|reflexivity].
        rewrite key_eqb_string_l in E''. apply key_eqb_string_r in E''.
        subst k. congruence.
      * exact IH.
Qed.

(** X1.  Registering a decoder under a type name that is a string succeeds,
    and from then on [from_primitive] applies that decoder to every value
    of that type name, whatever was registered under the name before;
    values of every other type name are decoded as they were before the
    registration, and the encoders are untouched. *)
Theorem register_from_primitive_then_decode cls name fn :
  exists cls',
    register_from_primitive cls (PStr name) fn = Return cls'
    /\ (forall value, from_primitive cls' value (PStr name) = fn value)
    /\ (forall value type_name,
          key_eqb (PStr name) type_name = false ->
          from_primitive cls' value type_name
          = from_primitive cls value type_name)
    /\ (forall obj, to_primitive cls' obj = to_primitive cls obj).
Proof.
  eexists. split; [reflexivity|]. split; [|split].
  - intros value. unfold from_primitive. simpl hashable. cbv iota.
    simpl _from_primitive_converters. rewrite find_store_name.
    simpl key_eqb. now rewrite String.eqb_refl.
  - intros value type_name H. unfold from_primitive.
    simpl _from_primitive_converters. rewrite find_store_name, H. reflexivity.
  - reflexivity.
Qed.

(** X2.  Encoders are looked up by the exact type of the object: after an
    encoder is registered for a type, [to_primitive] applies it to the
    objects of that type and leaves the treatment of every other type as it
    was; an encoder for [int] alone leaves booleans unchanged.  The
    decoders are untouched. *)
Theorem register_to_primitive_then_encode cls t fn :
  let cls' := register_to_primitive cls t fn in
  (forall obj, type_of obj = t -> to_primitive cls' obj = fn obj)
  /\ (forall obj, type_of obj <> t ->
        to_primitive cls' obj = to_primitive cls obj)
  /\ (forall b, to_primitive (register_to_primitive initial_registries int_t fn)
                  (PBool b) = Return (PBool b))
  /\ (forall value type_name,
        from_primitive cls' value type_name
        = from_primitive cls value type_name).
Proof.
  intros cls'. split; [|split; [|split]].
  - intros obj H. unfold to_primitive, cls'. simpl _to_primitive_converters.
    rewrite find_store_type, H.
    assert (E : pytype_eqb t t = true) by now apply pytype_eqb_eq.
    now rewrite E.
  - intros obj H. unfold to_primitive, cls'. simpl _to_primitive_converters.
    rewrite find_store_type.
    destruct (pytype_eqb t (type_of obj)) eqn:E; [|reflexivity].
    apply pytype_eqb_eq in E. congruence.
  - reflexivity.
  - reflexivity.
Qed.

Lemma decode_columns_initial (cols : list (string * string)) : forall vals,
  decode_columns initial_registries cols vals
  = Return (combine (map (fun col => PStr (fst col)) cols) vals).
Proof.
  induction cols as [|[name ty] cols IH]; intros vals; [reflexivity|].
  destruct vals as [|v vals]; [reflexivity|].
  simpl. now rewrite IH.
Qed.

(** X3.  While no decoder is registered, as when the class is loaded, the
    row builder puts the raw values of the Row object into the mapping
    unchanged, whatever the declared column types are. *)
Theorem construct_row_without_decoders c k kc kd cols vals :
  _construct_row initial_registries
    (set_meta_info c (metadata_object k kc cols)) (seq kd vals)
  = Return (PDict (store_all
                     (combine (map (fun col => PStr (fst col)) cols) vals) [])).
Proof.
  unfold _construct_row, py_zip, metadata_object. simpl _meta_info.
  rewrite !py_iter_seq. simpl bind at 1. simpl bind at 1. simpl bind at 1.
  rewrite construct_row_loop_decodes, decode_columns_initial. reflexivity.
Qed.

(** ** What the operations leave alone *)

Lemma process_reply_state cls c obj :
  fst (_process_reply cls c obj) = c
  \/ fst (_process_reply cls c obj) = set_meta_info c obj.
Proof.
  rewrite process_reply_by_shape.
  destruct (isinstance_dict obj); [now left|].
  destruct (metadata_shape obj); [now right|now left].
Qed.

Lemma recv_objs_held cls (objs : list pyval) : forall c,
  held (fst (fst (recv_objs cls c objs))) = held c.
Proof.
  induction objs as [|obj objs IH]; intros c; [reflexivity|].
  simpl. pose proof (process_reply_state cls c obj) as H.
  destruct (_process_reply cls c obj) as [c1 [reply|e]]; simpl in H.
  - specialize (IH c1).
    destruct (recv_objs cls c1 objs) as [[c2 ys] r]. simpl in *.
    rewrite IH. now destruct H as [->| ->].
  - now destruct H as [->| ->].
Qed.

Lemma recv_body_held cls cdc data (s : conn * ustate cdc) :
  held (fst (fst (fst (recv_body cls cdc data s)))) = held (fst s).
Proof.
  destruct s as [c u]. unfold recv_body.
  destruct (ufeed cdc u data) as [objs fed].
  pose proof (recv_objs_held cls objs c) as H.
  destruct (recv_objs cls c objs) as [[c' ys] [[]|e]]; [|exact H].
  destruct fed; exact H.
Qed.

(** The [for] loop consumes reads from the front, and keeps what its body
    keeps. *)
Lemma Socket_recv_frame {S Y : Type} (P : S -> Prop) (bs : nat)
  (body : bytes -> S -> S * list Y * result unit) :
  (forall buf s, P s -> P (fst (fst (body buf s)))) ->
  forall rs s,
    P s ->
    P (snd (fst (fst (Socket_recv bs body rs s))))
    /\ suffix_of (fst (fst (fst (Socket_recv bs body rs s)))) rs.
Proof.
  intros Hb. induction rs as [|[buf|e] rs IH]; intros s Hs.
  - split; [exact Hs|]. now exists [].
  - destruct buf as [|b buf].
    + split; [exact Hs|]. now exists [RecvOk []].
    + cbn [Socket_recv]. specialize (Hb (b :: buf) s Hs).
      destruct (body (b :: buf) s) as [[s1 ys1] [[]|e]]; simpl in Hb.
      * destruct (List.length (b :: buf) <? bs)%nat.
        -- split; [exact Hb|]. now exists [RecvOk (b :: buf)].
        -- destruct (IH s1 Hb) as [IH1 [consumed IH2]].
           destruct (Socket_recv bs body rs s1) as [[[rest s2] ys2] r].
           simpl in *. split; [exact IH1|].
           exists (RecvOk (b :: buf) :: consumed). now rewrite IH2.
      * split; [exact Hb|]. now exists [RecvOk (b :: buf)].
  - split; [exact Hs|]. now exists [RecvErr e].
Qed.

Lemma recv_keeps cls cdc c w :
  let '(c', w', _, _) := _recv cls cdc c w in
  same_database c c'
  /\ sent w' = sent w
  /\ send_faults w' = send_faults w
  /\ suffix_of (reads w') (reads w)
  /\ (_socket c' = _socket c \/ _socket c' = None).
Proof.
  unfold _recv. simpl _socket.
  destruct (_socket c) as [s|] eqn:Hs.
  - destruct (Socket_recv_frame
                (fun st : conn * ustate cdc => held (fst st) = held c)
                default_buf_size (recv_body cls cdc)
                (fun buf st H => eq_trans (recv_body_held cls cdc buf st) H)
                (reads w) (set_meta_info c PNone, unew cdc) eq_refl)
      as [H1 H2].
    destruct (Socket_recv default_buf_size (recv_body cls cdc) (reads w) _)
      as [[[rest [c1 u1]] ys] r].
    simpl in H1, H2. unfold held in H1. injection H1 as Hsock Hn Hp.
    assert (F : same_database c c1) by (split; assumption).
    destruct r as [[]|[]]; simpl; repeat split; try apply F; auto;
      rewrite Hsock; auto.
  - simpl. repeat split; auto. now exists [].
Qed.

(** A cycle that ends normally leaves the socket of the instance as it
    was. *)
Lemma recv_returns_socket cls cdc c w c' w' rows :
  _recv cls cdc c w = (c', w', rows, Return tt) ->
  _socket c' = _socket c.
Proof.
  unfold _recv. simpl _socket.
  destruct (_socket c) as [s|] eqn:Hs; [|discriminate].
  pose proof (Socket_recv_frame
                (fun st : conn * ustate cdc => held (fst st) = held c)
                default_buf_size (recv_body cls cdc)
                (fun buf st H => eq_trans (recv_body_held cls cdc buf st) H)
                (reads w) (set_meta_info c PNone, unew cdc) eq_refl) as [H1 _].
  destruct (Socket_recv default_buf_size (recv_body cls cdc) (reads w) _)
    as [[[rest [c1 u1]] ys] r].
  simpl in H1. unfold held in H1. injection H1 as Hsock _ _.
  destruct r as [[]|[]]; try discriminate.
  intros H. injection H as <- _ _. now rewrite Hsock.
Qed.

Lemma send_returns_sent cls cdc c w data c' w' :
  _send cls cdc c w data = (c', w', Return tt) ->
  exists serialized,
    packb cdc (to_primitive cls) data = Return serialized
    /\ sent w' = sent w ++ [serialized].
Proof.
  unfold _send, Socket_send.
  destruct (packb cdc (to_primitive cls) data) as [serialized|]; [|discriminate].
  destruct (_socket c); [|discriminate].
  destruct (send_faults w) as [|[e|] fs]; intros H; try discriminate;
    injection H as _ <-; now exists serialized.
Qed.

(** X4.  A reply cycle sends nothing and changes neither the database name
    nor the path; it takes reads from the front of what the socket has to
    give and leaves the rest in place; and it either leaves the socket of
    the instance as it was or drops it. *)
Theorem recv_frame cls cdc c w :
  let '(c', w', _, _) := _recv cls cdc c w in
  same_database c c'
  /\ sent w' = sent w
  /\ send_faults w' = send_faults w
  /\ suffix_of (reads w') (reads w)
  /\ (_socket c' = _socket c \/ _socket c' = None).
Proof. exact (recv_keeps cls cdc c w). Qed.

Lemma find_name_In (r : list (pyval * converter)) (k : pyval) (fn : converter) :
  find_name r k = Some fn -> exists k', In (k', fn) r.
Proof.
  induction r as [|[k0 fn0] r IH]; simpl; [discriminate|].
  destruct (key_eqb k0 k).
  - intros H. injection H as <-. exists k0. now left.
  - intros H. destruct (IH H) as [k' I]. exists k'. now right.
Qed.

Lemma from_primitive_raises cls value type_name e :
  benign_decoders cls ->
  from_primitive cls value type_name = Raise e -> benign e.
Proof.
  intros B. unfold from_primitive.
  destruct (hashable type_name); [|intros H; injection H as <-; exact I].
  destruct (find_name (_from_primitive_converters cls) type_name) as [fn|] eqn:F;
    [|discriminate].
  destruct (find_name_In _ _ _ F) as [k' Hin]. intros H.
  exact (B k' fn value e Hin H).
Qed.

Lemma unpack2_raises column e : unpack2 column = Raise e -> benign e.
Proof.
  unfold unpack2.
  destruct (py_iter column) as [items|e0] eqn:P.
  - simpl. destruct items as [|a [|b [|x items]]]; intros H;
      try discriminate; injection H as <-; exact I.
  - simpl. intros H. injection H as <-.
    destruct column; simpl in P; try discriminate; injection P as <-; exact I.
Qed.

Lemma construct_row_loop_raises cls (pairs : list (pyval * pyval)) :
  benign_decoders cls ->
  forall row e, construct_row_loop cls pairs row = Raise e -> benign e.
Proof.
  intros B. induction pairs as [|[column value] pairs IH]; intros row e;
    [discriminate|].
  simpl. destruct (unpack2 column) as [[col_name col_type]|e0] eqn:U.
  - simpl.
    destruct (from_primitive cls value col_type) as [v|e1] eqn:F.
    + simpl. unfold dict_setitem. destruct (hashable col_name).
      * simpl. apply IH.
      * simpl. intros H. injection H as <-. exact I.
    + simpl. intros H. injection H as <-.
      exact (from_primitive_raises cls value col_type e1 B F).
  - simpl. intros H. injection H as <-. exact (unpack2_raises column e0 U).
Qed.

Lemma construct_row_raises cls c data e :
  benign_decoders cls -> _construct_row cls c data = Raise e -> benign e.
Proof.
  intros B. unfold _construct_row, py_zip.
  destruct (py_iter (_meta_info c)) as [xs|e0] eqn:P.
  - simpl. destruct (py_iter data) as [ys|e1] eqn:Q.
    + simpl.
      destruct (construct_row_loop cls (combine xs ys) []) as [row|e2] eqn:L;
        [discriminate|].
      simpl. intros H. injection H as <-.
      exact (construct_row_loop_raises cls _ B [] e2 L).
    + simpl. intros H. injection H as <-.
      destruct data; simpl in Q; try discriminate; injection Q as <-; exact I.
  - simpl. intros H. injection H as <-.
    destruct (_meta_info c); simpl in P; try discriminate;
      injection P as <-; exact I.
Qed.

Lemma process_reply_raises cls c obj c' e :
  benign_decoders cls ->
  _process_reply cls c obj = (c', Raise e) -> benign e.
Proof.
  intros B. rewrite process_reply_by_shape.
  destruct (isinstance_dict obj) eqn:D.
  - destruct obj; try discriminate.
    unfold _check_status, _check_status_in.
    destruct (negb _); [|discriminate].
    rewrite getattr_Error_self. simpl. intros H. injection H as _ <-. exact I.
  - destruct (metadata_shape obj); [discriminate|].
    intros H. injection H as _ H.
    exact (construct_row_raises cls c obj e B H).
Qed.

Lemma recv_objs_raises cls (objs : list pyval) :
  benign_decoders cls ->
  forall c e, snd (recv_objs cls c objs) = Raise e -> benign e.
Proof.
  intros B. induction objs as [|obj objs IH]; intros c e; [discriminate|].
  simpl. destruct (_process_reply cls c obj) as [c1 [reply|e0]] eqn:P.
  - specialize (IH c1 e).
    destruct (recv_objs cls c1 objs) as [[c2 ys] r]. exact IH.
  - simpl. intros H. injection H as <-.
    exact (process_reply_raises cls c obj c1 e0 B P).
Qed.

Lemma recv_body_raises cls cdc data (st : conn * ustate cdc) e :
  benign_decoders cls -> benign_codec cdc ->
  snd (recv_body cls cdc data st) = Raise e -> benign e.
Proof.
  intros B C. destruct st as [c u]. unfold recv_body.
  destruct (ufeed cdc u data) as [objs fed] eqn:U.
  pose proof (recv_objs_raises cls objs B c) as H.
  destruct (recv_objs cls c objs) as [[c' ys] [[]|e0]].
  - destruct fed as [u'|e1]; [discriminate|].
    simpl. intros E. injection E as <-. exact (C u data objs e1 U).
  - simpl in *. intros E. injection E as <-. now apply H.
Qed.

(** The [for] loop ends normally, with an exception of its body, or with a
    socket exception. *)
Lemma Socket_recv_end {S Y : Type} (Q : exn -> Prop) (bs : nat)
  (body : bytes -> S -> S * list Y * result unit) :
  (forall buf s e, snd (body buf s) = Raise e -> Q e) ->
  forall rs s e,
    snd (Socket_recv bs body rs s) = Raise e ->
    Q e \/ exists exc, e = SocketException exc.
Proof.
  intros Hb. induction rs as [|[buf|e0] rs IH]; intros s e.
  - simpl. intros H. injection H as <-. right. now exists timed_out.
  - destruct buf as [|b buf]; [discriminate|].
    cbn [Socket_recv]. specialize (Hb (b :: buf) s).
    destruct (body (b :: buf) s) as [[s1 ys1] [[]|e1]].
    + destruct (List.length (b :: buf) <? bs)%nat; [discriminate|].
      specialize (IH s1 e).
      destruct (Socket_recv bs body rs s1) as [[[rest s2] ys2] r]. exact IH.
    + simpl. intros H. injection H as <-. left. now apply Hb.
  - simpl. intros H. injection H as <-. right. now exists e0.
Qed.

(** X5.  On an open connection, with decoders and a codec that raise
    neither the driver's [Error] nor a socket exception themselves, a reply
    cycle leaves the connection closed exactly when it ends in the network
    error made from a socket exception: it closes whenever it ends so, and
    whenever it ends otherwise (normally, or with an exception of the
    decoder, of a converter or of the classifier) the connection is still
    open.  No socket exception leaves the cycle unwrapped. *)
Theorem recv_closes_exactly_on_network_error cls cdc c w s :
  _socket c = Some s ->
  benign_decoders cls ->
  benign_codec cdc ->
  let '(c', _, _, r) := _recv cls cdc c w in
  (closed c' = true <-> exists e, r = Raise (network_error e))
  /\ (forall e, r <> Raise (SocketException e)).
Proof.
  intros Hs B C. unfold _recv. simpl _socket. rewrite Hs.
  destruct (Socket_recv_frame
              (fun st : conn * ustate cdc => held (fst st) = held c)
              default_buf_size (recv_body cls cdc)
              (fun buf st H => eq_trans (recv_body_held cls cdc buf st) H)
              (reads w) (set_meta_info c PNone, unew cdc) eq_refl)
    as [H1 _].
  pose proof (Socket_recv_end benign default_buf_size (recv_body cls cdc)
                (fun buf st e => recv_body_raises cls cdc buf st e B C)
                (reads w) (set_meta_info c PNone, unew cdc)) as E.
  destruct (Socket_recv default_buf_size (recv_body cls cdc) (reads w) _)
    as [[[rest [c1 u1]] ys] r].
  simpl in H1, E. unfold held in H1. injection H1 as Hsock _ _.
  assert (O : closed c1 = false) by (unfold closed; now rewrite Hsock, Hs).
  destruct r as [[]|e0].
  - split; [|discriminate]. rewrite O. split; [discriminate|].
    intros [e H]. discriminate.
  - destruct (E e0 eq_refl) as [Q|[exc ->]].
    + destruct e0; try contradiction;
        (split; [rewrite O; split; [discriminate|];
                 intros [e H]; unfold network_error in H; discriminate H
                |intros e H; discriminate H]).
    + split; [|discriminate]. split; [|reflexivity].
      intros _. now exists exc.
Qed.

Lemma recv_closes_exactly_on_network_error_witness :
  (let '(c', _, _, r) :=
     _recv initial_registries Sample.codec Sample.open_conn
       (Sample.quiet [RecvOk [x00; x01]; RecvErr (socket_error "reset")]) in
   (closed c' = true <-> exists e, r = Raise (network_error e))
   /\ (forall e, r <> Raise (SocketException e)))
  /\ (let '(c', _, _, r) :=
        _recv initial_registries Sample.codec Sample.open_conn
          (Sample.quiet [RecvOk (x00 :: x01 :: repeat x03 4094);
                         RecvErr (socket_error "reset")]) in
      (closed c' = true <-> exists e, r = Raise (network_error e))
      /\ (forall e, r <> Raise (SocketException e))).
Proof.
  split.
  - apply (recv_closes_exactly_on_network_error initial_registries
             Sample.codec Sample.open_conn
             (Sample.quiet [RecvOk [x00; x01]; RecvErr (socket_error "reset")])
             (mkSocket 3)).
    + reflexivity.
    + intros k fn v e [].
    + intros u data objs e H. discriminate.
  - apply (recv_closes_exactly_on_network_error initial_registries
             Sample.codec Sample.open_conn
             (Sample.quiet [RecvOk (x00 :: x01 :: repeat x03 4094);
                            RecvErr (socket_error "reset")])
             (mkSocket 3)).
    + reflexivity.
    + intros k fn v e [].
    + intros u data objs e H. discriminate.
Defined.

Lemma send_frame_reads cls cdc c w data :
  reads (snd (fst (_send cls cdc c w data))) = reads w.
Proof.
  unfold _send, Socket_send.
  destruct (packb cdc (to_primitive cls) data); [|reflexivity].
  destruct (_socket c); [|reflexivity].
  destruct (send_faults w) as [|[e|] fs]; reflexivity.
Qed.

(** X6.  [_send] reads nothing and changes neither the metadata nor the
    database name and path.  When it returns, the instance is as it was and
    exactly the serialized object has been handed to the socket, after what
    was sent before.  When it raises, either the instance is as it was and
    no send was made (the serializer raised, or the connection was closed),
    or the exception is the network error made from the socket exception of
    the send and only the socket of the instance has been dropped. *)
Theorem send_frame cls cdc c w data :
  let '(c', w', r) := _send cls cdc c w data in
  reads w' = reads w
  /\ _meta_info c' = _meta_info c
  /\ same_database c c'
  /\ match r with
     | Return _ =>
         c' = c
         /\ exists serialized,
              packb cdc (to_primitive cls) data = Return serialized
              /\ sent w' = sent w ++ [serialized]
     | Raise e =>
         (c' = c /\ w' = w
          /\ (packb cdc (to_primitive cls) data = Raise e
              \/ (closed c = true /\ e = AttributeError "send")))
         \/ (exists exc serialized fs,
               packb cdc (to_primitive cls) data = Return serialized
               /\ closed c = false
               /\ send_faults w = Some exc :: fs
               /\ e = network_error exc
               /\ c' = set_socket c None
               /\ closed c' = true)
     end.
Proof.
  unfold _send, Socket_send, same_database, closed.
  destruct (packb cdc (to_primitive cls) data) as [serialized|e].
  - destruct (_socket c) as [s|]; [|simpl; auto 10].
    destruct (send_faults w) as [|[exc|] fs] eqn:F; simpl; repeat split; eauto.
    right. exists exc, serialized, fs. auto 10.
  - simpl. auto 10.
Qed.

(** X7.  A closed connection stays closed and touches nothing: [_send]
    raises without sending (the exception of the serializer if it has one,
    else [AttributeError]), the reply generator raises [AttributeError]
    without reading, and a command raises without yielding a row; none of
    them returns. *)
Theorem closed_connection_fails_fast cls cdc c w :
  closed c = true ->
  (forall data,
     _send cls cdc c w data
     = (c, w, match packb cdc (to_primitive cls) data with
              | Return _ => Raise (AttributeError "send")
              | Raise e => Raise e
              end))
  /\ _recv cls cdc c w
     = (set_meta_info c PNone, w, [], Raise (AttributeError "recv"))
  /\ (forall operation sql parameters,
        exists e,
          run_command cls cdc c w operation sql parameters
          = (c, w, [], Raise e))
  /\ (forall data,
        exists e, send_and_drain cls cdc c w data = (c, w, Raise e)).
Proof.
  unfold closed. destruct (_socket c) eqn:Hs; [discriminate|]. intros _.
  assert (S0 : forall data,
             _send cls cdc c w data
             = (c, w, match packb cdc (to_primitive cls) data with
                      | Return _ => Raise (AttributeError "send")
                      | Raise e => Raise e
                      end)).
  { intros data. unfold _send. rewrite Hs.
    now destruct (packb cdc (to_primitive cls) data). }
  split; [exact S0|]. split; [|split].
  - unfold _recv. simpl _socket. now rewrite Hs.
  - intros operation sql parameters. unfold run_command, _command.
    rewrite command_params_returns, S0.
    destruct (packb cdc (to_primitive cls) _); eexists; reflexivity.
  - intros data. unfold send_and_drain. rewrite S0.
    destruct (packb cdc (to_primitive cls) data); eexists; reflexivity.
Qed.

Lemma closed_connection_fails_fast_witness :
  _recv initial_registries Sample.codec (set_socket Sample.open_conn None)
    (Sample.quiet [RecvOk [x03]])
  = (set_meta_info (set_socket Sample.open_conn None) PNone,
     Sample.quiet [RecvOk [x03]], [], Raise (AttributeError "recv")).
Proof.
  exact (proj1 (proj2 (closed_connection_fails_fast initial_registries
                         Sample.codec (set_socket Sample.open_conn None)
                         (Sample.quiet [RecvOk [x03]]) eq_refl))).
Defined.

(** ** Reads and chunks *)

(** X8.  One call of [Socket.recv] takes the reads in order, one per chunk
    it yields, and hands each buffer on whole: what it consumed is the
    chunks it yielded, followed by nothing (it stopped after a short chunk,
    or ran into the timeout with nothing left to read), by the empty buffer
    of a closed peer, or by the read that raised. *)
Theorem recv_chunks_consumes_in_order (bs : nat) (rs : list recv_result) :
  let '(rest, chunks, r) := recv_chunks bs rs in
  exists stop,
    rs = map RecvOk chunks ++ stop ++ rest
    /\ match r with
       | Return _ => stop = [RecvOk []] \/ (stop = [] /\ chunks <> [])
       | Raise e =>
           (exists exc, stop = [RecvErr exc] /\ e = SocketException exc)
           \/ (stop = [] /\ rest = [] /\ e = SocketException timed_out)
       end.
Proof.
  induction rs as [|[buf|e] rs IH].
  - rewrite recv_chunks_nil. exists []. split; [reflexivity|]. now right.
  - destruct buf as [|b buf].
    + rewrite recv_chunks_empty. exists [RecvOk []]. split; [reflexivity|].
      now left.
    + rewrite recv_chunks_data.
      destruct (List.length (b :: buf) <? bs)%nat.
      * exists []. split; [reflexivity|]. right. split; [reflexivity|discriminate].
      * destruct (recv_chunks bs rs) as [[rest chunks] r].
        destruct IH as [stop [E H]]. exists stop. split.
        -- simpl. now rewrite E.
        -- destruct r as [[]|e].
           ++ destruct H as [H|[H _]]; [now left|].
              right. split; [exact H|discriminate].
           ++ exact H.
  - rewrite recv_chunks_err. exists [RecvErr e]. split; [reflexivity|].
    left. now exists e.
Qed.

(** Full chunks that the body takes without raising are passed, and the
    loop goes on with the reads after them. *)
Lemma Socket_recv_full_prefix {S Y : Type} (bs : nat)
  (body : bytes -> S -> S * list Y * result unit) (full : list bytes) :
  forall rs s s1 ys1,
  Forall (full_chunk bs) full ->
  run_body body full s = (s1, ys1, Return tt) ->
  Socket_recv bs body (map RecvOk full ++ rs) s =
  let '(rest, s2, ys2, r) := Socket_recv bs body rs s1 in
  (rest, s2, ys1 ++ ys2, r).
Proof.
  induction full as [|chunk full IH]; intros rs s s1 ys1 F R.
  - simpl in R. injection R as <- <-. simpl.
    now destruct (Socket_recv bs body rs s) as [[[? ?] ?] ?].
  - inversion F as [|? ? [N L] F']. subst.
    destruct chunk as [|b buf]; [now contradiction N|].
    simpl map. simpl app. cbn [Socket_recv]. simpl in R.
    destruct (body (b :: buf) s) as [[s0 ys0] [[]|e]]; [|discriminate].
    destruct (run_body body full s0) as [[s' ys'] r'] eqn:R'.
    injection R as <- <- ->.
    assert (G : (List.length (b :: buf) <? bs)%nat = false)
      by (apply Nat.ltb_ge; exact L).
    rewrite G, (IH rs s0 s' ys' F' R').
    destruct (Socket_recv bs body rs s') as [[[rest s2] ys2] r].
    now rewrite app_assoc.
Qed.

(** X9.  When the classifier or a converter raises on an object of a
    chunk, the reply cycle ends there: the rows of the earlier
    objects have been yielded, the exception comes out as it is, the
    connection stays open, and every later read is left in the socket, where
    the next cycle will find it. *)
Theorem recv_stops_at_exception cls cdc c w s full chunk later
  objs0 u0 c0 rows0 objs fed c1 rows e :
  _socket c = Some s ->
  reads w = map RecvOk full ++ RecvOk chunk :: later ->
  Forall (full_chunk default_buf_size) full ->
  chunk <> [] ->
  feed_all cdc (unew cdc) full = (objs0, Return u0) ->
  recv_objs cls (set_meta_info c PNone) objs0 = (c0, rows0, Return tt) ->
  ufeed cdc u0 chunk = (objs, fed) ->
  recv_objs cls c0 objs = (c1, rows, Raise e) ->
  (forall exc, e <> SocketException exc) ->
  _recv cls cdc c w = (c1, set_reads w later, rows0 ++ rows, Raise e)
  /\ closed c1 = false.
Proof.
  intros Hs Hr F N Hf Ho Hu Hc He.
  assert (O : closed c1 = false).
  { pose proof (recv_objs_held cls objs0 (set_meta_info c PNone)) as H0.
    pose proof (recv_objs_held cls objs c0) as H1.
    rewrite Ho in H0. rewrite Hc in H1. simpl in H0, H1.
    unfold held in *. injection H0 as A _ _. injection H1 as B _ _.
    unfold closed. simpl in A. now rewrite B, A, Hs. }
  split; [|exact O].
  unfold _recv. simpl _socket. rewrite Hs, Hr.
  rewrite (Socket_recv_full_prefix default_buf_size (recv_body cls cdc) full
             (RecvOk chunk :: later) (set_meta_info c PNone, unew cdc)
             (c0, u0) rows0 F
             (run_body_recv_body cls cdc full _ _ objs0 u0 c0 rows0 Hf Ho)).
  destruct chunk as [|b buf]; [now contradiction N|].
  cbn [Socket_recv]. unfold recv_body at 1. rewrite Hu, Hc.
  destruct e; try reflexivity. now contradiction (He e).
Qed.

Lemma recv_stops_at_exception_witness :
  _recv initial_registries Sample.codec Sample.open_conn
    (Sample.quiet [RecvOk [x00; x01; x04; x02]; RecvOk [x03]])
  = (set_meta_info Sample.open_conn Sample.metadata,
     set_reads (Sample.quiet [RecvOk [x00; x01; x04; x02]; RecvOk [x03]])
       [RecvOk [x03]],
     [] ++ [Sample.mapping_1], Raise (AttributeError "Error"))
  /\ closed (set_meta_info Sample.open_conn Sample.metadata) = false.
Proof.
  apply (recv_stops_at_exception initial_registries Sample.codec
           Sample.open_conn
           (Sample.quiet [RecvOk [x00; x01; x04; x02]; RecvOk [x03]])
           (mkSocket 3) [] [x00; x01; x04; x02] [RecvOk [x03]]
           [] tt (set_meta_info Sample.open_conn PNone) []
           [Sample.metadata; Sample.row_1; Sample.status_missing_table;
            Sample.row_2]
           (Return tt));
    try reflexivity; try discriminate; constructor.
Defined.

(** ** The current metadata *)

Lemma process_reply_returns_state cls c obj c' reply :
  _process_reply cls c obj = (c', Return reply) ->
  _meta_info c' = last_metadata [obj] (_meta_info c).
Proof.
  rewrite process_reply_by_shape. unfold last_metadata. simpl.
  destruct (isinstance_dict obj).
  - intros H. now injection H as <- _.
  - destruct (metadata_shape obj); intros H; now injection H as <- _.
Qed.

(** X10.  Over a run of reply objects that raises nothing, the metadata the
    instance ends up with is the last Metadata object of the run, or the
    one it held if the run has none: a later Metadata object replaces an
    earlier one, and Status and Row objects leave it alone. *)
Theorem current_metadata_is_the_latest cls (objs : list pyval) :
  forall c c' rows,
  recv_objs cls c objs = (c', rows, Return tt) ->
  _meta_info c' = last_metadata objs (_meta_info c).
Proof.
  induction objs as [|obj objs IH]; intros c c' rows H.
  - simpl in H. now injection H as <- _.
  - simpl in H.
    destruct (_process_reply cls c obj) as [c1 [reply|e]] eqn:E; [|discriminate].
    destruct (recv_objs cls c1 objs) as [[c2 ys] r] eqn:R.
    injection H as <- _ ->.
    rewrite (IH c1 c2 ys R).
    now rewrite (process_reply_returns_state cls c obj c1 reply E).
Qed.

Lemma current_metadata_is_the_latest_witness :
  _meta_info (set_meta_info Sample.open_conn
                (PList [PList [PStr "n"; PStr "int"]]))
  = last_metadata
      [Sample.metadata; Sample.row_1; PList [PList [PStr "n"; PStr "int"]];
       PList [PInt 4]; Sample.status_ok]
      (_meta_info Sample.open_conn).
Proof.
  apply (current_metadata_is_the_latest initial_registries
           [Sample.metadata; Sample.row_1; PList [PList [PStr "n"; PStr "int"]];
            PList [PInt 4]; Sample.status_ok]
           Sample.open_conn
           (set_meta_info Sample.open_conn (PList [PList [PStr "n"; PStr "int"]]))
           [Sample.mapping_1; PDict [(PStr "n", PInt 4)]]).
  reflexivity.
Defined.

(** ** Looking a column up in a row *)

Lemma dict_find_store_string (d : pydict) (n m : string) (v : pyval) :
  dict_find (dict_store d (PStr n) v) (PStr m) =
  if String.eqb n m then Some v else dict_find d (PStr m).
Proof.
  induction d as [|[k v'] d IH]; simpl.
  - reflexivity.
  - destruct (key_eqb k (PStr n)) eqn:E; simpl.
    + apply key_eqb_string_r in E. subst k. simpl.
      now destruct (String.eqb n m).
    + destruct (key_eqb k (PStr m)) eqn:E'.
      * apply key_eqb_string_r in E'. subst k. simpl in E.
        rewrite String.eqb_sym in E. now rewrite E.
      * exact IH.
Qed.

Lemma dict_find_app (a b : pydict) (k : pyval) :
  dict_find (a ++ b) k =
  match dict_find a k with Some v => Some v | None => dict_find b k end.
Proof.
  induction a as [|[k' v'] a IH]; simpl; [reflexivity|].
  now destruct (key_eqb k' k).
Qed.

Lemma dict_find_store_all (entries : list (pyval * pyval)) :
  forall (names : list string) (d : pydict) (m : string),
  map fst entries = map PStr names ->
  dict_find (store_all entries d) (PStr m) =
  match dict_find (rev entries) (PStr m) with
  | Some v => Some v
  | None => dict_find d (PStr m)
  end.
Proof.
  induction entries as [|[k v] entries IH]; intros names d m H.
  - reflexivity.
  - destruct names as [|n names]; [discriminate|].
    simpl in H. injection H as -> H.
    rewrite store_all_cons, (IH names _ m H).
    simpl rev. rewrite dict_find_app, dict_find_store_string.
    destruct (dict_find (rev entries) (PStr m)); [reflexivity|].
    simpl. now destruct (String.eqb n m).
Qed.

(** X11.  In the row built for a Row object, a column name maps to the
    decoded value of the last position that carries that name, among the
    positions paired; a name carried by no paired position is not a key of
    the row. *)
Theorem row_lookup_gives_last_column cls c k kc kd cols vals entries :
  decode_columns cls cols vals = Return entries ->
  exists row,
    _construct_row cls (set_meta_info c (metadata_object k kc cols)) (seq kd vals)
    = Return (PDict row)
    /\ forall name,
         dict_find row (PStr name) = dict_find (rev entries) (PStr name).
Proof.
  intros H. exists (store_all entries []). split.
  - unfold _construct_row, py_zip, metadata_object. simpl _meta_info.
    rewrite !py_iter_seq. simpl bind at 1. simpl bind at 1. simpl bind at 1.
    now rewrite construct_row_loop_decodes, H.
  - intros name.
    rewrite (dict_find_store_all entries
               (map fst (firstn (Nat.min (List.length cols) (List.length vals)) cols))
               [] name).
    + now destruct (dict_find (rev entries) (PStr name)).
    + rewrite (decode_columns_keys cls cols vals entries H).
      now rewrite map_map.
Qed.

Lemma row_lookup_gives_last_column_witness :
  exists row,
    _construct_row initial_registries
      (set_meta_info Sample.open_conn
         (metadata_object as_list as_list [("a", "int"); ("b", "text"); ("a", "int")]))
      (seq as_list [PInt 1; PStr "x"; PInt 3])
    = Return (PDict row)
    /\ forall name,
         dict_find row (PStr name)
         = dict_find (rev [(PStr "a", PInt 1); (PStr "b", PStr "x");
                           (PStr "a", PInt 3)]) (PStr name).
Proof.
  apply (row_lookup_gives_last_column initial_registries Sample.open_conn
           as_list as_list as_list [("a", "int"); ("b", "text"); ("a", "int")]
           [PInt 1; PStr "x"; PInt 3]).
  reflexivity.
Defined.

(** ** Rows and columns out of shape *)

(** X12.  A Row object with no values gives the empty mapping whatever the
    metadata sequence holds, even columns that are not pairs; so does any
    Row object under a metadata sequence with no columns.  Nothing is
    raised in either case. *)
Theorem construct_row_of_nothing cls c k kd items vals :
  _construct_row cls (set_meta_info c (seq k items)) (seq kd [])
  = Return (PDict [])
  /\ _construct_row cls (set_meta_info c (seq k [])) (seq kd vals)
     = Return (PDict []).
Proof.
  unfold _construct_row, py_zip. simpl _meta_info. rewrite !py_iter_seq.
  split.
  - simpl. now rewrite combine_nil.
  - reflexivity.
Qed.

(** X13.  A column that is paired with a value but is not a pair stops the
    row builder at once: a column sequence of any length but two raises
    [ValueError], a column that is [None], a boolean or an integer raises
    [TypeError]; a column whose name cannot be hashed raises [TypeError]
    once its value has been decoded.  No mapping comes out. *)
Theorem construct_row_on_bad_column cls c k kd more value vals :
  (forall kc items,
     List.length items <> 2%nat ->
     _construct_row cls (set_meta_info c (seq k (seq kc items :: more)))
       (seq kd (value :: vals))
     = Raise ValueError)
  /\ (forall column,
        py_iter column = Raise TypeError ->
        _construct_row cls (set_meta_info c (seq k (column :: more)))
          (seq kd (value :: vals))
        = Raise TypeError)
  /\ (forall kc name type_name decoded,
        hashable name = false ->
        from_primitive cls value type_name = Return decoded ->
        _construct_row cls
          (set_meta_info c (seq k (seq kc [name; type_name] :: more)))
          (seq kd (value :: vals))
        = Raise TypeError).
Proof.
  unfold _construct_row, py_zip. simpl _meta_info.
  split; [|split].
  - intros kc items H. rewrite !py_iter_seq. simpl.
    destruct items as [|a [|b [|x items]]]; destruct kc; try reflexivity;
      exfalso; now apply H.
  - intros column H. rewrite !py_iter_seq. simpl. unfold unpack2.
    now rewrite H.
  - intros kc name type_name decoded Hn Hd. rewrite !py_iter_seq. simpl.
    assert (U : unpack2 (seq kc [name; type_name]) = Return (name, type_name))
      by (destruct kc; reflexivity).
    rewrite U. simpl. rewrite Hd. simpl.
    unfold dict_setitem. now rewrite Hn.
Qed.

(** ** Closing *)

(** X14.  [close] on an open connection whose shutdown succeeds leaves it
    closed, and a second [close] then raises [AttributeError].  When the
    shutdown raises, the socket exception comes out as it is, not as the
    network error, and the connection is not marked closed. *)
Theorem close_once_only c w s :
  _socket c = Some s ->
  (close_fault w = None ->
   close c w = (set_socket c None, Return tt)
   /\ closed (set_socket c None) = true
   /\ forall w', close (set_socket c None) w'
                 = (set_socket c None, Raise (AttributeError "close")))
  /\ (forall e,
        close_fault w = Some e ->
        close c w = (c, Raise (SocketException e)) /\ closed c = false).
Proof.
  intros Hs. unfold close, Socket_close, closed. rewrite Hs. split.
  - intros H. rewrite H. auto.
  - intros e H. rewrite H. auto.
Qed.

Lemma close_once_only_witness :
  close Sample.open_conn (Sample.quiet [])
  = (set_socket Sample.open_conn None, Return tt)
  /\ close (set_socket Sample.open_conn None) (Sample.quiet [])
     = (set_socket Sample.open_conn None, Raise (AttributeError "close")).
Proof.
  destruct (close_once_only Sample.open_conn (Sample.quiet []) (mkSocket 3)
              eq_refl) as [H _].
  destruct (H eq_refl) as [H1 [_ H2]]. split; [exact H1|apply H2].
Defined.

(** ** Opening *)

(** X15.  When the socket cannot be connected, the constructor raises the
    network error made from the socket exception; the instance it was
    building is closed, and nothing has been sent or read. *)
Theorem init_connect_failure cls cdc w fd database path e :
  connect_fault w = Some e ->
  __init__ cls cdc w fd database path
  = (mkConn database path None PNone, w, Raise (network_error e))
  /\ closed (mkConn database path None PNone) = true.
Proof.
  intros H. unfold __init__, Socket_init. now rewrite H.
Qed.

Lemma init_connect_failure_witness :
  __init__ initial_registries Sample.codec
    (mkWorld (Some (socket_error "Connection refused")) [] [] [] None)
    3%nat (PStr "main") (PStr "/var/lib/main.sqlite")
  = (mkConn (PStr "main") (PStr "/var/lib/main.sqlite") None PNone,
     mkWorld (Some (socket_error "Connection refused")) [] [] [] None,
     Raise (network_error (socket_error "Connection refused")))
  /\ closed (mkConn (PStr "main") (PStr "/var/lib/main.sqlite") None PNone)
     = true.
Proof.
  exact (init_connect_failure initial_registries Sample.codec
           (mkWorld (Some (socket_error "Connection refused")) [] [] [] None)
           3%nat (PStr "main") (PStr "/var/lib/main.sqlite")
           (socket_error "Connection refused") eq_refl).
Defined.

(** What [send_and_drain] leaves when it returns. *)
Lemma send_and_drain_returns cls cdc c w data c' w' rows :
  send_and_drain cls cdc c w data = (c', w', Return rows) ->
  _socket c' = _socket c
  /\ (exists s, _socket c = Some s)
  /\ same_database c c'
  /\ (exists serialized,
        packb cdc (to_primitive cls) data = Return serialized
        /\ sent w' = sent w ++ [serialized])
  /\ suffix_of (reads w') (reads w)
  /\ Forall nonempty_mapping rows.
Proof.
  unfold send_and_drain.
  destruct (_send cls cdc c w data) as [[c1 w1] [[]|e]] eqn:S1; [|discriminate].
  destruct (send_returns _ _ _ _ _ _ _ S1) as [-> [R1 O]].
  destruct (send_returns_sent _ _ _ _ _ _ _ S1) as [serialized [P Q]].
  pose proof (recv_keeps cls cdc c w1) as K.
  pose proof (recv_yields cls cdc c w1) as Y.
  destruct (_recv cls cdc c w1) as [[[c2 w2] ys] [[]|e]] eqn:R2; [|discriminate].
  intros H. injection H as <- <- <-.
  destruct K as [K1 [K2 [_ [K4 _]]]].
  split; [exact (recv_returns_socket _ _ _ _ _ _ _ R2)|].
  split; [exact O|]. split; [exact K1|]. split.
  - exists serialized. split; [exact P|]. now rewrite K2.
  - split; [now rewrite <- R1|exact Y].
Qed.

(** X16.  When the constructor returns, the connection is open and holds
    the database name and the path it was given; the one thing sent is the
    serialized connect envelope, with the endpoint [connect], the database
    name and the path; and the reads left are what was left of the reads
    after the handshake reply. *)
Theorem init_returns_open_connection cls cdc w fd database path c w' :
  __init__ cls cdc w fd database path = (c, w', Return tt) ->
  closed c = false
  /\ _dbname c = database /\ _dbpath c = path
  /\ (exists serialized,
        packb cdc (to_primitive cls)
          (PDict [(PStr "endpoint", PStr "connect");
                  (PStr "database", database);
                  (PStr "path", path)])
        = Return serialized
        /\ sent w' = sent w ++ [serialized])
  /\ suffix_of (reads w') (reads w).
Proof.
  unfold __init__, Socket_init.
  destruct (connect_fault w); [discriminate|].
  unfold _connect_to_database.
  destruct (send_and_drain cls cdc _ w _) as [[c1 w1] [rows|e]] eqn:E;
    [|discriminate].
  intros H. injection H as <- <-.
  destruct (send_and_drain_returns _ _ _ _ _ _ _ _ E)
    as [S1 [_ [[D1 D2] [P [R _]]]]].
  simpl in S1, D1, D2. unfold closed. rewrite S1.
  repeat split; assumption.
Qed.

Lemma init_returns_open_connection_witness :
  closed (mkConn (PStr "main") (PStr "/db") (Some (mkSocket 3)) PNone) = false
  /\ _dbname (mkConn (PStr "main") (PStr "/db") (Some (mkSocket 3)) PNone)
     = PStr "main"
  /\ _dbpath (mkConn (PStr "main") (PStr "/db") (Some (mkSocket 3)) PNone)
     = PStr "/db"
  /\ (exists serialized,
        packb Sample.codec (to_primitive initial_registries)
          (PDict [(PStr "endpoint", PStr "connect");
                  (PStr "database", PStr "main");
                  (PStr "path", PStr "/db")])
        = Return serialized
        /\ sent (mkWorld None [] [] [[x00]] None)
           = sent (Sample.quiet [RecvOk [x03]]) ++ [serialized])
  /\ suffix_of (reads (mkWorld None [] [] [[x00]] None))
       (reads (Sample.quiet [RecvOk [x03]])).
Proof.
  apply (init_returns_open_connection initial_registries Sample.codec
           (Sample.quiet [RecvOk [x03]]) 3%nat (PStr "main") (PStr "/db")).
  reflexivity.
Defined.

(** ** Dropping the database *)

(** X17.  When [drop_database] returns, the connection is still open with
    the same database name and path, the one thing sent is the serialized
    drop envelope with the endpoint [drop], the database name and the path,
    and the list returned holds non-empty mappings only.  When the send
    raises, [drop_database] raises the same exception and nothing has been
    read. *)
Theorem drop_database_outcome cls cdc c w :
  let '(c', w', r) := drop_database cls cdc c w in
  match r with
  | Return rows =>
      closed c' = false
      /\ same_database c c'
      /\ (exists serialized,
            packb cdc (to_primitive cls)
              (PDict [(PStr "endpoint", PStr "drop");
                      (PStr "database", _dbname c);
                      (PStr "path", _dbpath c)])
            = Return serialized
            /\ sent w' = sent w ++ [serialized])
      /\ Forall nonempty_mapping rows
  | Raise e =>
      forall c1 w1 e1,
        _send cls cdc c w (drop_envelope c) = (c1, w1, Raise e1) ->
        e = e1 /\ c' = c1 /\ w' = w1 /\ reads w' = reads w
  end.
Proof.
  unfold drop_database.
  destruct (send_and_drain cls cdc c w (drop_envelope c))
    as [[c' w'] [rows|e]] eqn:E.
  - destruct (send_and_drain_returns _ _ _ _ _ _ _ _ E)
      as [S1 [[s O] [D [P [_ Y]]]]].
    unfold closed. rewrite S1, O. auto.
  - intros c1 w1 e1 H. unfold send_and_drain in E. rewrite H in E.
    injection E as <- <- <-.
    pose proof (send_frame_reads cls cdc c w (drop_envelope c)) as R.
    rewrite H in R. auto.
Qed.

(** ** Replies that end without a short read *)

Lemma recv_chunks_all_full (bs : nat) (full : list bytes) :
  Forall (full_chunk bs) full ->
  recv_chunks bs (map RecvOk full)
  = ([], full, Raise (SocketException timed_out)).
Proof.
  induction 1 as [|chunk full [N L] _ IH]; [reflexivity|].
  destruct chunk as [|b buf]; [now contradiction N|].
  simpl map. rewrite recv_chunks_data, IH.
  assert (G : (List.length (b :: buf) <? bs)%nat = false)
    by (apply Nat.ltb_ge; exact L).
  now rewrite G.
Qed.

(** X18.  A reply that arrives in chunks of the full read size and nothing
    after them, neither a shorter chunk nor the end of the stream, is
    processed in full, and then the cycle ends in the network error for the
    timeout of the next read, with the connection closed: the rows have
    been yielded, but the command does not end normally. *)
Theorem full_chunks_end_in_timeout cls cdc c w s full objs u' c1 rows :
  _socket c = Some s ->
  reads w = map RecvOk full ->
  Forall (full_chunk default_buf_size) full ->
  feed_all cdc (unew cdc) full = (objs, Return u') ->
  recv_objs cls (set_meta_info c PNone) objs = (c1, rows, Return tt) ->
  _recv cls cdc c w
  = (set_socket c1 None, set_reads w [], rows,
     Raise (network_error timed_out))
  /\ closed (set_socket c1 None) = true.
Proof.
  intros Hs Hr F Hf Ho. split; [|reflexivity].
  rewrite (recv_of_stream cls cdc c w s [] full
             (Raise (SocketException timed_out)) objs u' c1 rows Hs
             (eq_trans (f_equal (recv_chunks default_buf_size) Hr)
                       (recv_chunks_all_full default_buf_size full F))
             Hf Ho).
  reflexivity.
Qed.

Lemma full_chunks_end_in_timeout_witness :
  _recv initial_registries Sample.codec Sample.open_conn
    (Sample.quiet [RecvOk (x00 :: x01 :: repeat x03 4094)])
  = (set_socket (set_meta_info Sample.open_conn Sample.metadata) None,
     set_reads (Sample.quiet [RecvOk (x00 :: x01 :: repeat x03 4094)]) [],
     [Sample.mapping_1], Raise (network_error timed_out))
  /\ closed (set_socket (set_meta_info Sample.open_conn Sample.metadata) None)
     = true.
Proof.
  apply (full_chunks_end_in_timeout initial_registries Sample.codec
           Sample.open_conn
           (Sample.quiet [RecvOk (x00 :: x01 :: repeat x03 4094)])
           (mkSocket 3) [x00 :: x01 :: repeat x03 4094]
           (Sample.metadata :: Sample.row_1 :: repeat Sample.status_ok 4094)
           tt (set_meta_info Sample.open_conn Sample.metadata)
           [Sample.mapping_1]).
  - reflexivity.
  - reflexivity.
  - constructor; [|constructor]. split; [discriminate|].
    apply Nat.leb_le. vm_compute. reflexivity.
  - vm_compute. reflexivity.
  - vm_compute. reflexivity.
Defined.

(** ** Replies without a Status object, and past one *)

(** X19.  A reply with no object at all, the peer closing the stream at
    once, ends the cycle normally with no row: no Status object is waited
    for, so [drop_database] (and the handshake alike) returns the empty
    list as if the server had answered [OK]. *)
Theorem empty_reply_ends_normally cls cdc c w s later :
  _socket c = Some s ->
  reads w = RecvOk [] :: later ->
  _recv cls cdc c w = (set_meta_info c PNone, set_reads w later, [], Return tt)
  /\ (forall serialized,
        packb cdc (to_primitive cls) (drop_envelope c) = Return serialized ->
        hd None (send_faults w) = None ->
        drop_database cls cdc c w
        = (set_meta_info c PNone,
           set_reads (set_sends w (tl (send_faults w)) (sent w ++ [serialized]))
             later,
           Return [])).
Proof.
  intros Hs Hr.
  assert (R : forall w0, reads w0 = RecvOk [] :: later ->
              _recv cls cdc c w0
              = (set_meta_info c PNone, set_reads w0 later, [], Return tt)).
  { intros w0 H0. unfold _recv. simpl _socket. now rewrite Hs, H0. }
  split; [now apply R|].
  intros serialized Hp Hf. unfold drop_database, send_and_drain.
  rewrite (send_open cls cdc c w (drop_envelope c) s serialized Hs Hp).
  destruct (send_faults w) as [|[e|] fs]; try discriminate;
    simpl tl; now rewrite R.
Qed.

Lemma empty_reply_ends_normally_witness :
  _recv initial_registries Sample.codec Sample.open_conn
    (Sample.quiet [RecvOk []; RecvOk [x03]])
  = (set_meta_info Sample.open_conn PNone,
     set_reads (Sample.quiet [RecvOk []; RecvOk [x03]]) [RecvOk [x03]],
     [], Return tt).
Proof.
  exact (proj1 (empty_reply_ends_normally initial_registries Sample.codec
                  Sample.open_conn (Sample.quiet [RecvOk []; RecvOk [x03]])
                  (mkSocket 3) [RecvOk [x03]] eq_refl eq_refl)).
Defined.

Lemma process_ok_status cls c obj :
  ok_status obj -> _process_reply cls c obj = (c, Return PNone).
Proof.
  intros [Hd Hs]. unfold _process_reply. now rewrite Hd, Hs.
Qed.

(** X20.  A Status object with the [OK] code does not end the reply: the
    objects that come after it in the stream are classified, and their rows
    yielded, exactly as if it had not been there. *)
Theorem ok_status_does_not_end_the_reply cls c before status after :
  ok_status status ->
  recv_objs cls c (before ++ status :: after)
  = recv_objs cls c (before ++ after).
Proof.
  intros H. rewrite !recv_objs_app.
  destruct (recv_objs cls c before) as [[c1 ys] [[]|e]]; [|reflexivity].
  simpl. rewrite (process_ok_status cls c1 status H).
  destruct (recv_objs cls c1 after) as [[c2 ys'] r]. reflexivity.
Qed.

Lemma ok_status_does_not_end_the_reply_witness :
  recv_objs initial_registries Sample.open_conn
    ([Sample.metadata; Sample.row_1] ++ Sample.status_ok :: [Sample.row_2])
  = recv_objs initial_registries Sample.open_conn
      ([Sample.metadata; Sample.row_1] ++ [Sample.row_2]).
Proof.
  apply (ok_status_does_not_end_the_reply initial_registries Sample.open_conn
           [Sample.metadata; Sample.row_1] Sample.status_ok [Sample.row_2]).
  split; reflexivity.
Defined.

(** ** Commands without parameters *)

(** X21.  With no argument after the SQL text, [execute] and [fetch] send
    the query envelope with the empty tuple as [parameters]; a call with
    two or more arguments sends what the call with none sends, and does
    what it does. *)
Theorem command_without_parameters cls cdc c w sql :
  execute cls cdc c w sql []
  = send_envelope cls cdc c w (query_envelope c EXECUTE sql (PTuple []))
  /\ fetch cls cdc c w sql []
     = send_envelope cls cdc c w
         (query_envelope c EXECUTE_AND_FETCH sql (PTuple []))
  /\ (forall a b more,
        execute cls cdc c w sql (a :: b :: more) = execute cls cdc c w sql []
        /\ fetch cls cdc c w sql (a :: b :: more) = fetch cls cdc c w sql []).
Proof.
  unfold execute, fetch. repeat split; now rewrite !command_sends.
Qed.
